(** * Voice Satellite (ESP32-S3 firmware): the push-to-talk audio pipeline

    A shallow embedding of [esp32/src/main.cpp]: the WAV header writer, the
    capture path, the HTTP exchange with its response read loop, playback,
    the polling controller [loop], and the start-up code ([connectWiFi],
    [setup]).

    Conventions.
    - [size_t], [uint32_t] and [int] are 32 bits wide on the ESP32-S3; they
      are modelled as [Z] with the wrap-around written out ([u32]).
    - A byte is a [Z] in [0, 255]; [(uint8_t) e] is [u8 e].
    - [audioBuffer] is a [list Z]; [buf[i] = v] is stdpp's [<[i:=v]>].  A
      store past the end of the allocation is undefined in C (and a no-op
      for stdpp's insert); every store into the buffer is therefore also
      recorded as an event [BufWrite off len], so that staying inside the
      allocation is a theorem about the trace and not a side condition.
    - [float] is IEEE-754 binary32 and [double] binary64, modelled exactly
      as dyadic rationals with round-to-nearest-even.
    - Peripherals and the network are oracles: what [digitalRead],
      [i2s_read], [i2s_write], [WiFi.status] and the [HTTPClient] calls
      return is an input of the model; what the firmware does to the outside
      world is a trace of [Event]s. *)

From Stdlib Require Import ZArith String Ascii Lia Bool.
From stdpp Require Import base list.

Local Open Scope Z_scope.

(* ===================================================================== *)
(** * Part I: definitions                                                  *)
(* ===================================================================== *)

(** ** Machine integers *)

Definition u8 (z : Z) : Z := Z.land z 255.
Definition u16 (z : Z) : Z := z mod 2 ^ 16.
Definition u32 (z : Z) : Z := z mod 2 ^ 32.

(** A character literal stored into a [uint8_t]. *)
Definition ch (c : ascii) : Z := Z.of_N (N_of_ascii c).

(** ** Audio configuration (the [#define]s of main.cpp) *)

Definition SAMPLE_RATE : Z := 16000.
Definition BITS_PER_SAMPLE : Z := 16.
Definition CHANNELS : Z := 1.
Definition BYTES_PER_SAMPLE : Z := BITS_PER_SAMPLE / 8.
Definition I2S_READ_BUF_SIZE : Z := 1024.
Definition MAX_RECORDING_SECS : Z := 15.
Definition MAX_AUDIO_BYTES : Z :=
  SAMPLE_RATE * BYTES_PER_SAMPLE * MAX_RECORDING_SECS.
Definition WAV_HEADER_SIZE : Z := 44.

(** The size of the allocation made in [setup]:
    [ps_malloc(MAX_AUDIO_BYTES + WAV_HEADER_SIZE)]. *)
Definition capacity : Z := MAX_AUDIO_BYTES + WAV_HEADER_SIZE.

(** ** WAV header *)

(** [void writeWavHeader(uint8_t* buf, uint32_t dataSize)]: forty-four
    single-byte stores, in the order of the source. *)
Definition writeWavHeader (buf : list Z) (dataSize : Z) : list Z :=
  let fileSize := u32 (dataSize + WAV_HEADER_SIZE - 8) in
  let byteRate := u32 (SAMPLE_RATE * CHANNELS * BYTES_PER_SAMPLE) in
  let blockAlign := u16 (CHANNELS * BYTES_PER_SAMPLE) in
  (* RIFF chunk *)
  let buf := <[0%nat := ch "R"]> buf in
  let buf := <[1%nat := ch "I"]> buf in
  let buf := <[2%nat := ch "F"]> buf in
  let buf := <[3%nat := ch "F"]> buf in
  let buf := <[4%nat := u8 fileSize]> buf in
  let buf := <[5%nat := u8 (Z.shiftr fileSize 8)]> buf in
  let buf := <[6%nat := u8 (Z.shiftr fileSize 16)]> buf in
  let buf := <[7%nat := u8 (Z.shiftr fileSize 24)]> buf in
  let buf := <[8%nat := ch "W"]> buf in
  let buf := <[9%nat := ch "A"]> buf in
  let buf := <[10%nat := ch "V"]> buf in
  let buf := <[11%nat := ch "E"]> buf in
  (* fmt sub-chunk *)
  let buf := <[12%nat := ch "f"]> buf in
  let buf := <[13%nat := ch "m"]> buf in
  let buf := <[14%nat := ch "t"]> buf in
  let buf := <[15%nat := ch " "]> buf in
  let buf := <[16%nat := 16]> buf in
  let buf := <[17%nat := 0]> buf in
  let buf := <[18%nat := 0]> buf in
  let buf := <[19%nat := 0]> buf in
  let buf := <[20%nat := 1]> buf in
  let buf := <[21%nat := 0]> buf in
  let buf := <[22%nat := u8 CHANNELS]> buf in
  let buf := <[23%nat := 0]> buf in
  let buf := <[24%nat := u8 SAMPLE_RATE]> buf in
  let buf := <[25%nat := u8 (Z.shiftr SAMPLE_RATE 8)]> buf in
  let buf := <[26%nat := u8 (Z.shiftr SAMPLE_RATE 16)]> buf in
  let buf := <[27%nat := u8 (Z.shiftr SAMPLE_RATE 24)]> buf in
  let buf := <[28%nat := u8 byteRate]> buf in
  let buf := <[29%nat := u8 (Z.shiftr byteRate 8)]> buf in
  let buf := <[30%nat := u8 (Z.shiftr byteRate 16)]> buf in
  let buf := <[31%nat := u8 (Z.shiftr byteRate 24)]> buf in
  let buf := <[32%nat := u8 blockAlign]> buf in
  let buf := <[33%nat := 0]> buf in
  let buf := <[34%nat := BITS_PER_SAMPLE]> buf in
  let buf := <[35%nat := 0]> buf in
  (* data sub-chunk *)
  let buf := <[36%nat := ch "d"]> buf in
  let buf := <[37%nat := ch "a"]> buf in
  let buf := <[38%nat := ch "t"]> buf in
  let buf := <[39%nat := ch "a"]> buf in
  let buf := <[40%nat := u8 dataSize]> buf in
  let buf := <[41%nat := u8 (Z.shiftr dataSize 8)]> buf in
  let buf := <[42%nat := u8 (Z.shiftr dataSize 16)]> buf in
  let buf := <[43%nat := u8 (Z.shiftr dataSize 24)]> buf in
  buf.

(** The header as a value: what [writeWavHeader] leaves in the first 44
    bytes of a zeroed 44-byte region. *)
Definition wavHeaderBytes (dataSize : Z) : list Z :=
  writeWavHeader (replicate 44 0) dataSize.

(** Little-endian 32-bit field starting at offset [i]; an absent byte reads
    as 0. *)
Definition byte_at (bytes : list Z) (i : nat) : Z := default 0 (bytes !! i).

Definition le32_at (bytes : list Z) (i : nat) : Z :=
  Z.lor (byte_at bytes i)
    (Z.lor (Z.shiftl (byte_at bytes (i + 1)) 8)
       (Z.lor (Z.shiftl (byte_at bytes (i + 2)) 16)
              (Z.shiftl (byte_at bytes (i + 3)) 24))).

Definition tag_at (bytes : list Z) (i : nat) (c0 c1 c2 c3 : ascii) : bool :=
  (byte_at bytes i =? ch c0) && (byte_at bytes (i + 1) =? ch c1) &&
  (byte_at bytes (i + 2) =? ch c2) && (byte_at bytes (i + 3) =? ch c3).

(** Modelled from the spec: [validateHeader], the consumer-side decoder of
    the container contract, is not part of the firmware (the firmware never
    parses a header; the hub does).  Following section 4.1 and 6 of the
    specification it rejects inputs shorter than the header, verifies the
    fixed tags (RIFF/WAVE, and the fmt/data chunk markers) and extracts the
    little-endian declared payload length at bytes 40..43. *)
Definition validateHeader (bytes : list Z) : option Z :=
  if Z.of_nat (length bytes) <? WAV_HEADER_SIZE then None
  else if tag_at bytes 0 "R" "I" "F" "F" && tag_at bytes 8 "W" "A" "V" "E" &&
          tag_at bytes 12 "f" "m" "t" " " && tag_at bytes 36 "d" "a" "t" "a"
       then Some (le32_at bytes 40)
       else None.

(** ** IEEE-754 arithmetic, as far as [loop] needs it

    A finite floating-point number is a dyadic rational [dmant * 2^dexp].
    [round_ne prec emin p q] is the correctly rounded (nearest, ties to
    even) value of the non-negative rational [p / q] in the format with
    [prec] bits of precision and least exponent [emin].  Overflow to
    infinity is not modelled: the largest quotient the firmware can form is
    below [2^32]. *)

Record dyadic := Dy { dmant : Z; dexp : Z }.

Definition scaled_num (p e : Z) : Z := p * 2 ^ Z.max 0 (- e).
Definition scaled_den (q e : Z) : Z := q * 2 ^ Z.max 0 e.

Definition round_ne (prec emin p q : Z) : dyadic :=
  if p =? 0 then Dy 0 0 else
  (* 2^(k-1) < p/q < 2^(k+1) *)
  let k := Z.log2 p - Z.log2 q in
  let e1 := k - prec + 1 in
  (* the exponent that puts the significand in [2^(prec-1), 2^prec) *)
  let e2 := if scaled_num p e1 <? 2 ^ (prec - 1) * scaled_den q e1
            then e1 - 1 else e1 in
  (* subnormal range: the exponent does not go below emin *)
  let e := Z.max emin e2 in
  let num := scaled_num p e in
  let den := scaled_den q e in
  let '(m, r) := Z.div_eucl num den in
  if (den <? 2 * r) || ((2 * r =? den) && Z.odd m)
  then Dy (m + 1) e else Dy m e.

Definition binary32 : Z -> Z -> dyadic := round_ne 24 (-149).
Definition binary64 : Z -> Z -> dyadic := round_ne 53 (-1074).

(** [(float) n] for an unsigned integer [n]. *)
Definition float_of_uint (n : Z) : dyadic := binary32 n 1.

(** [a / b] in [float], for [a >= 0] and [b > 0]. *)
Definition float_div (a b : dyadic) : dyadic :=
  binary32 (dmant a * 2 ^ Z.max 0 (dexp a - dexp b))
           (dmant b * 2 ^ Z.max 0 (dexp b - dexp a)).

(** [a > b] on finite values (a [float] operand is promoted to [double]
    exactly, so the comparison is the one of the rationals). *)
Definition dyadic_gtb (a b : dyadic) : bool :=
  let e := Z.min (dexp a) (dexp b) in
  dmant b * 2 ^ (dexp b - e) <? dmant a * 2 ^ (dexp a - e).

(** The [double] literal [0.3]. *)
Definition double_0_3 : dyadic := binary64 3 10.

(** [float durationSecs = (float)audioDataSize / (SAMPLE_RATE * BYTES_PER_SAMPLE)]. *)
Definition durationSecs (audioDataSize : Z) : dyadic :=
  float_div (float_of_uint audioDataSize)
            (float_of_uint (SAMPLE_RATE * BYTES_PER_SAMPLE)).

(** The test [durationSecs > 0.3] of [loop]. *)
Definition long_enough (audioDataSize : Z) : bool :=
  dyadic_gtb (durationSecs audioDataSize) double_0_3.

(** ** Observable effects *)

Inductive level := LOW | HIGH.

Definition level_eqb (a b : level) : bool :=
  match a, b with
  | LOW, LOW | HIGH, HIGH => true
  | _, _ => false
  end.

(** The lines the firmware prints on the serial console. *)
Inductive LogLine :=
| RecStarted                        (* "[REC] Recording started..." *)
| BufferFull                        (* "[REC] Buffer full, stopping." *)
| RecStopped (audioDataSize : Z)    (* "[REC] Stopped. Recorded ..." *)
| TooShort                          (* "[REC] Too short, discarding." *)
| WifiSkip                          (* "[HTTP] WiFi not connected, skipping send." *)
| Sending (totalSize : Z)           (* "[HTTP] Sending %d bytes to %s" *)
| ResponseReceived (httpCode : Z)   (* "[HTTP] Response received: %d" *)
| AudioResponse (responseLen : Z)   (* "[HTTP] Audio response: %d bytes" *)
| TooLarge                          (* "[HTTP] Audio response too large for buffer." *)
| ServerText (body : string)        (* "[HTTP] Server response:" and the body *)
| HttpError (httpCode : Z)          (* "[HTTP] Error: %d - %s" *)
| PlayStart (totalBytes : Z)        (* "[PLAY] Playing %d bytes of audio..." *)
| PlayDone.                         (* "[PLAY] Done. Played %.1f seconds" *)

Inductive Event :=
| Led (l : level)                   (* digitalWrite(LED_PIN, l) *)
| Serial (m : LogLine)
| BufWrite (off len : Z)            (* a store of [len] bytes at audioBuffer + off *)
| HttpPost (body : list Z)          (* http.POST(audioBuffer, totalSize) *)
| HttpEnd                           (* http.end() *)
| Delay (ms : Z)
| I2SWrite (off len : Z)            (* i2s_write(DAC, audioBuffer + off, len, ...) *)
| I2SZeroDma.                       (* i2s_zero_dma_buffer(I2S_DAC_PORT) *)

Abbreviation Trace := (list Event).

(** ** Globals *)

Record State := mkState {
  audioBuffer : list Z;
  audioBufferPos : Z;
  isRecording : bool;
  lastButtonState : level
}.

Definition set_buffer (b : list Z) (s : State) : State :=
  mkState b (audioBufferPos s) (isRecording s) (lastButtonState s).
Definition set_pos (p : Z) (s : State) : State :=
  mkState (audioBuffer s) p (isRecording s) (lastButtonState s).
Definition set_recording (r : bool) (s : State) : State :=
  mkState (audioBuffer s) (audioBufferPos s) r (lastButtonState s).
Definition set_button (l : level) (s : State) : State :=
  mkState (audioBuffer s) (audioBufferPos s) (isRecording s) l.

(** The globals as initialised, once [setup] has allocated the buffer with
    contents [buf]. *)
Definition initial (buf : list Z) : State := mkState buf 0 false HIGH.

(** ** Commands

    A command runs on the globals and either returns ([Done]) with a
    result, the new globals and the effects it had, or is still waiting
    inside a polling loop when the observed input ends ([Blocked]), with
    the globals and effects so far. *)

Inductive Outcome (A : Type) :=
| Done (a : A) (s : State) (t : Trace)
| Blocked (s : State) (t : Trace).
Arguments Done {A} a s t.
Arguments Blocked {A} s t.

Definition Cmd (A : Type) : Type := State -> Outcome A.

Definition ret {A} (a : A) : Cmd A := fun s => Done a s [].

Definition bind {A B} (c : Cmd A) (k : A -> Cmd B) : Cmd B :=
  fun s =>
    match c s with
    | Done a s1 t1 =>
        match k a s1 with
        | Done b s2 t2 => Done b s2 (t1 ++ t2)
        | Blocked s2 t2 => Blocked s2 (t1 ++ t2)
        end
    | Blocked s1 t1 => Blocked s1 t1
    end.

Notation "x <- c ;; k" := (bind c (fun x => k))
  (at level 100, c at next level, right associativity).
Notation "c ;; k" := (bind c (fun _ => k))
  (at level 100, right associativity).

Definition get : Cmd State := fun s => Done s s [].
Definition modify (f : State -> State) : Cmd unit := fun s => Done tt (f s) [].
Definition emit (e : Event) : Cmd unit := fun s => Done tt s [e].
Definition block {A} : Cmd A := fun s => Blocked s [].

Definition out_state {A} (o : Outcome A) : State :=
  match o with Done _ s _ | Blocked s _ => s end.
Definition out_trace {A} (o : Outcome A) : Trace :=
  match o with Done _ _ t | Blocked _ t => t end.
Definition returned {A} (o : Outcome A) : bool :=
  match o with Done _ _ _ => true | Blocked _ _ => false end.

(** A store of [data] at [audioBuffer + off] ([memcpy], [readBytes]). *)
Definition store_bytes (off : Z) (data : list Z) : Cmd unit :=
  modify (fun s => set_buffer (list_inserts (Z.to_nat off) data (audioBuffer s)) s) ;;
  emit (BufWrite off (Z.of_nat (length data))).

(** ** Oracles for the environment *)

(** What one [i2s_read] call on the microphone port does: its return code
    and the samples the driver has ready. *)
Record I2SRead := mkRead { i2s_ok : bool; i2s_data : list Z }.

(** One iteration of the response read loop: what [stream->available()]
    returns, and the bytes [stream->readBytes] can deliver. *)
Record Poll := mkPoll { available : Z; incoming : list Z }.

(** [size_t available = stream->available();]: the [int] that the stream
    returns, converted to [size_t]. *)
Definition polled (p : Poll) : Z := u32 (available p).

(** What the [HTTPClient] reports for the reply to a POST. *)
Record Response := mkResponse {
  httpCode : Z;          (* http.POST(...) *)
  contentType : string;  (* http.header("Content-Type") *)
  getSize : Z;           (* http.getSize() *)
  polls : list Poll;     (* the response stream, poll by poll *)
  getString : string     (* http.getString() *)
}.

(** The DAC port, call by call: how many bytes the driver takes when
    [i2s_write] is called (it reports them in [written]). *)
Abbreviation Speaker := (list nat).

(** Everything one iteration of [loop] can observe. *)
Record LoopInput := mkInput {
  button : level;        (* digitalRead(BUTTON_PIN) *)
  mic : I2SRead;
  wifi_connected : bool; (* WiFi.status() == WL_CONNECTED *)
  reply : Response;
  speaker : Speaker
}.

(** ** Recording *)

Definition startRecording : Cmd unit :=
  modify (set_pos WAV_HEADER_SIZE) ;;
  modify (set_recording true) ;;
  emit (Led HIGH) ;;
  emit (Serial RecStarted).

(** [i2s_read(I2S_MIC_PORT, readBuf, I2S_READ_BUF_SIZE, &bytesRead, ...)]:
    the driver copies at most the requested number of bytes. *)
Definition i2s_read (rd : I2SRead) (size : Z) : bool * list Z :=
  (i2s_ok rd, take (Z.to_nat size) (i2s_data rd)).

Definition captureAudioChunk (rd : I2SRead) : Cmd unit :=
  s <- get ;;
  if negb (isRecording s) then ret tt else
  let '(result, readBuf) := i2s_read rd I2S_READ_BUF_SIZE in
  let bytesRead := Z.of_nat (length readBuf) in
  if result && (0 <? bytesRead) then
    if u32 (audioBufferPos s + bytesRead) <=? MAX_AUDIO_BYTES + WAV_HEADER_SIZE then
      store_bytes (audioBufferPos s) readBuf ;;
      modify (set_pos (u32 (audioBufferPos s + bytesRead)))
    else
      emit (Serial BufferFull) ;;
      modify (set_recording false) ;;
      emit (Led LOW)
  else ret tt.

Definition stopRecording : Cmd unit :=
  modify (set_recording false) ;;
  emit (Led LOW) ;;
  s <- get ;;
  let audioDataSize := u32 (audioBufferPos s - WAV_HEADER_SIZE) in
  emit (Serial (RecStopped audioDataSize)) ;;
  modify (fun s => set_buffer (writeWavHeader (audioBuffer s) audioDataSize) s) ;;
  emit (BufWrite 0 WAV_HEADER_SIZE).

(** ** Playback *)

(** [i2s_write(I2S_DAC_PORT, src, size, &written, portMAX_DELAY)]: the
    driver takes at most the [size] bytes it is offered and reports how
    many it took; the return code is ignored by the caller. *)
Definition i2s_write (accepts : nat) (size : Z) : Z :=
  Z.min (Z.of_nat accepts) size.

(** The [while (offset < totalBytes)] loop of [playAudio]: the offset
    advances by what the driver reports in [written]. *)
Fixpoint play_loop (dac : Speaker) (offset totalBytes : Z) : Cmd unit :=
  if offset <? totalBytes then
    match dac with
    | [] => block
    | accepts :: dac' =>
        let toWrite := Z.min 1024 (u32 (totalBytes - offset)) in
        let written := i2s_write accepts toWrite in
        emit (I2SWrite offset toWrite) ;;
        play_loop dac' (u32 (offset + written)) totalBytes
    end
  else ret tt.

Definition playAudio (dac : Speaker) (totalBytes : Z) : Cmd unit :=
  emit (Serial (PlayStart totalBytes)) ;;
  play_loop dac WAV_HEADER_SIZE totalBytes ;;
  emit I2SZeroDma ;;
  emit (Serial PlayDone).

(** ** HTTP send and receive *)

(** The [while (bytesRead < responseLen)] loop of [sendAudioToServer]. *)
Fixpoint read_loop (responseLen : Z) (ps : list Poll) (bytesRead : Z) : Cmd Z :=
  if bytesRead <? u32 responseLen then
    match ps with
    | [] => block
    | p :: ps' =>
        let available := polled p in
        if available =? 0 then
          emit (Delay 1) ;;
          read_loop responseLen ps' bytesRead
        else
          let toRead := Z.min available (u32 (responseLen - bytesRead)) in
          let data := take (Z.to_nat toRead) (incoming p) in
          let got := Z.of_nat (length data) in
          store_bytes bytesRead data ;;
          read_loop responseLen ps' (u32 (bytesRead + got))
    end
  else ret bytesRead.

(** The condition under which the reply is handled as audio:
    [contentType.startsWith("audio/wav") && responseLen > WAV_HEADER_SIZE]. *)
Definition is_audio_reply (r : Response) : bool :=
  String.prefix "audio/wav" (contentType r) && (WAV_HEADER_SIZE <? getSize r).

Definition sendAudioToServer (connected : bool) (r : Response) (dac : Speaker)
  : Cmd unit :=
  if negb connected then emit (Serial WifiSkip) else
  s <- get ;;
  let totalSize := audioBufferPos s in
  emit (Serial (Sending totalSize)) ;;
  emit (Led HIGH) ;;
  emit (HttpPost (take (Z.to_nat totalSize) (audioBuffer s))) ;;
  (if httpCode r =? 200 then
     emit (Serial (ResponseReceived (httpCode r))) ;;
     let responseLen := getSize r in
     if is_audio_reply r then
       emit (Serial (AudioResponse responseLen)) ;;
       if responseLen <=? MAX_AUDIO_BYTES + WAV_HEADER_SIZE then
         bytesRead <- read_loop responseLen (polls r) 0 ;;
         playAudio dac bytesRead
       else emit (Serial TooLarge)
     else emit (Serial (ServerText (getString r)))
   else emit (Serial (HttpError (httpCode r)))) ;;
  emit HttpEnd ;;
  emit (Led LOW).

(** ** The controller *)

Definition loop (inp : LoopInput) : Cmd unit :=
  let buttonState := button inp in
  (* Button just pressed *)
  s <- get ;;
  (if level_eqb (lastButtonState s) HIGH && level_eqb buttonState LOW
   then startRecording else ret tt) ;;
  (* Button is being held *)
  s <- get ;;
  (if level_eqb buttonState LOW && isRecording s
   then captureAudioChunk (mic inp) else ret tt) ;;
  (* Button just released *)
  s <- get ;;
  (if level_eqb (lastButtonState s) LOW && level_eqb buttonState HIGH && isRecording s
   then
     stopRecording ;;
     s <- get ;;
     let audioDataSize := u32 (audioBufferPos s - WAV_HEADER_SIZE) in
     if long_enough audioDataSize
     then sendAudioToServer (wifi_connected inp) (reply inp) (speaker inp)
     else emit (Serial TooShort)
   else ret tt) ;;
  modify (set_button buttonState) ;;
  emit (Delay 10).

(** Successive iterations of [loop]. *)
Fixpoint run (inputs : list LoopInput) : Cmd unit :=
  match inputs with
  | [] => ret tt
  | inp :: rest => loop inp ;; run rest
  end.

(** Successive calls of [captureAudioChunk]. *)
Fixpoint captures (reads : list I2SRead) : Cmd unit :=
  match reads with
  | [] => ret tt
  | rd :: rest => captureAudioChunk rd ;; captures rest
  end.

(** ** Predicates on traces *)

Definition is_post (e : Event) : bool :=
  match e with HttpPost _ => true | _ => false end.
Definition is_play (e : Event) : bool :=
  match e with Serial (PlayStart _) => true | _ => false end.
Definition is_bufwrite (e : Event) : bool :=
  match e with BufWrite _ _ => true | _ => false end.
Definition is_error_report (e : Event) : bool :=
  match e with
  | Serial TooLarge | Serial (HttpError _) | Serial WifiSkip => true
  | _ => false
  end.

Fixpoint count (f : Event -> bool) (t : Trace) : nat :=
  match t with
  | [] => 0%nat
  | e :: t' => ((if f e then 1 else 0) + count f t')%nat
  end.

(** A store stays inside the allocation. *)
Definition write_in_bounds (e : Event) : Prop :=
  match e with
  | BufWrite off len => 0 <= off /\ 0 <= len /\ off + len <= capacity
  | _ => True
  end.

(** Total number of bytes stored at or after the header. *)
Fixpoint payload_written (t : Trace) : Z :=
  match t with
  | [] => 0
  | BufWrite off len :: t' =>
      (if WAV_HEADER_SIZE <=? off then len else 0) + payload_written t'
  | _ :: t' => payload_written t'
  end.

(** The controller is idle when no recording is in progress; the exchange
    and playback are transient inside the blocking call of
    [sendAudioToServer]. *)
Definition Idle (s : State) : Prop := isRecording s = false.

(** ** Auxiliary definitions used in the statements and proofs *)

(** [round_ne] once the exponent is known. *)
Definition round_at (e p q : Z) : dyadic :=
  let num := scaled_num p e in
  let den := scaled_den q e in
  if (den <? 2 * (num mod den)) || ((2 * (num mod den) =? den) && Z.odd (num / den))
  then Dy (num / den + 1) e else Dy (num / den) e.

(** The exponent [round_ne] selects when [Z.log2 p = lp] and [Z.log2 q = lq]. *)
Definition pick_exp (prec emin p q lp lq : Z) : Z :=
  let e1 := lp - lq - prec + 1 in
  Z.max emin (if scaled_num p e1 <? 2 ^ (prec - 1) * scaled_den q e1
              then e1 - 1 else e1).

(** An outcome with more effects in front. *)
Definition with_prefix {A} (t0 : Trace) (o : Outcome A) : Outcome A :=
  match o with
  | Done a s t => Done a s (t0 ++ t)
  | Blocked s t => Blocked s (t0 ++ t)
  end.

(** One iteration with the button held and the microphone delivering [rd]
    (nothing is played while the button is down); one iteration with the
    button up. *)
Definition held (rd : I2SRead) (connected : bool) (r : Response) : LoopInput :=
  mkInput LOW rd connected r [].
Definition released (connected : bool) (r : Response) (dac : Speaker) : LoopInput :=
  mkInput HIGH (mkRead false []) connected r dac.

(** A full DMA read of silence. *)
Definition full_chunk : I2SRead :=
  mkRead true (replicate (Z.to_nat I2S_READ_BUF_SIZE) 0).

Definition is_delay (e : Event) : bool :=
  match e with Delay _ => true | _ => false end.
Definition is_i2s_write (e : Event) : bool :=
  match e with I2SWrite _ _ => true | _ => false end.

(** What the playback loop may do: offer the DAC between 1 and 1024 bytes
    that lie inside [lo, hi). *)
Definition dac_call (lo hi : Z) (e : Event) : Prop :=
  match e with
  | I2SWrite off len => lo <= off /\ 1 <= len <= 1024 /\ off + len <= hi
  | _ => False
  end.

(** What the response read loop may do: wait, or store inside [lo, hi). *)
Definition read_event (lo hi : Z) (e : Event) : Prop :=
  match e with
  | Delay _ => True
  | BufWrite off len => lo <= off /\ 0 <= len /\ off + len <= hi
  | _ => False
  end.

(** What a trace of the read loop has received: [received b t = Some n] when
    [t] holds only waits and stores, the stores follow one another from
    offset [b], and the next free offset is [n]. *)
Fixpoint received (b : Z) (t : Trace) : option Z :=
  match t with
  | [] => Some b
  | Delay _ :: t' => received b t'
  | BufWrite off len :: t' => if off =? b then received (b + len) t' else None
  | _ => None
  end.

(** The effects of [sendAudioToServer] up to and including the POST. *)
Definition post_prefix (s : State) : Trace :=
  [Serial (Sending (audioBufferPos s)); Led HIGH;
   HttpPost (take (Z.to_nat (audioBufferPos s)) (audioBuffer s))].

(** A stream that hands over what it announces.  [total_available] adds up
    what the loop sees of the announcements, the [size_t] values. *)
Definition well_behaved (p : Poll) : Prop :=
  0 <= available p <= Z.of_nat (length (incoming p)).

Fixpoint total_available (ps : list Poll) : Z :=
  match ps with
  | [] => 0
  | p :: ps' => polled p + total_available ps'
  end.

(** The globals once [stopRecording] has run. *)
Definition stopped (s : State) : State :=
  mkState (writeWavHeader (audioBuffer s) (u32 (audioBufferPos s - WAV_HEADER_SIZE)))
          (audioBufferPos s) false (lastButtonState s).

Definition stop_trace (s : State) : Trace :=
  [Led LOW; Serial (RecStopped (u32 (audioBufferPos s - WAV_HEADER_SIZE)));
   BufWrite 0 WAV_HEADER_SIZE].

(** A store that reaches into the 44 header bytes. *)
Definition is_header_store (e : Event) : bool :=
  match e with BufWrite off _ => off <? WAV_HEADER_SIZE | _ => false end.

(** Little-endian 16-bit field starting at offset [i]. *)
Definition le16_at (bytes : list Z) (i : nat) : Z :=
  Z.lor (byte_at bytes i) (Z.shiftl (byte_at bytes (i + 1)) 8).

(** [i2s_stream off t]: [t] consists of DAC writes only, each of 1 to 1024
    bytes, the first at offset [off] and each starting where the previous
    one ended; the result is the offset after the last one. *)
Fixpoint i2s_stream (off : Z) (t : Trace) : option Z :=
  match t with
  | [] => Some off
  | I2SWrite o len :: t' =>
      if (o =? off) && (1 <=? len) && (len <=? 1024)
      then i2s_stream (off + len) t' else None
  | _ :: _ => None
  end.

(** [fed dac off t]: [t] consists of DAC writes only, answered in order by
    [dac]; the first offers bytes from offset [off], and each next one
    starts where the driver stopped taking the previous one.  The result is
    the offset up to which the driver has taken the buffer. *)
Fixpoint fed (dac : Speaker) (off : Z) (t : Trace) : option Z :=
  match t with
  | [] => Some off
  | I2SWrite o len :: t' =>
      match dac with
      | accepts :: dac' =>
          if o =? off then fed dac' (off + i2s_write accepts len) t' else None
      | [] => None
      end
  | _ :: _ => None
  end.

(** Drivers: one that takes at least [k] bytes of what every call offers
    (or all of it, when less is offered), and one that takes nothing. *)
Definition takes_at_least (k : nat) (dac : Speaker) : Prop :=
  Forall (fun accepts => (k <= accepts)%nat) dac.

Definition takes_nothing (dac : Speaker) : Prop :=
  Forall (fun accepts => accepts = 0%nat) dac.

Definition out_value {A} (o : Outcome A) : option A :=
  match o with Done a _ _ => Some a | Blocked _ _ => None end.

Definition is_http_end (e : Event) : bool :=
  match e with HttpEnd => true | _ => false end.

(** The polls that have something to read. *)
Definition nonempty_polls (ps : list Poll) : list Poll :=
  List.filter (fun p => negb (polled p =? 0)) ps.

Definition without_delays (t : Trace) : Trace :=
  List.filter (fun e => negb (is_delay e)) t.

(** What holds of the globals between any two steps of the controller. *)
Definition cursor_ok (s : State) : Prop :=
  0 <= audioBufferPos s <= capacity /\
  (isRecording s = true -> WAV_HEADER_SIZE <= audioBufferPos s).

(** The bytes a stream announces, poll after poll, as the loop sees the
    announcements. *)
Fixpoint stream_bytes (ps : list Poll) : list Z :=
  match ps with
  | [] => []
  | p :: ps' => take (Z.to_nat (polled p)) (incoming p) ++ stream_bytes ps'
  end.

(** The bytes one microphone read contributes. *)
Definition chunk_of (rd : I2SRead) : list Z :=
  take (Z.to_nat I2S_READ_BUF_SIZE) (i2s_data rd).

(** A read that succeeds and delivers something. *)
Definition good_read (rd : I2SRead) : Prop :=
  i2s_ok rd = true /\ chunk_of rd <> [].

Fixpoint payload_of (reads : list I2SRead) : list Z :=
  match reads with
  | [] => []
  | rd :: rest => chunk_of rd ++ payload_of rest
  end.

Inductive BootLine :=
| Banner            (* the three banner lines *)
| MemPsram          (* "[MEM] Allocated %d bytes from PSRAM" *)
| MemHeap           (* "[MEM] Allocated %d bytes from heap (no PSRAM)" *)
| MemFatal          (* "[MEM] FATAL: Could not allocate audio buffer!" *)
| MicReady          (* "[I2S] Microphone initialized on I2S_NUM_0" *)
| DacReady          (* "[I2S] DAC initialized on I2S_NUM_1" *)
| WifiConnecting    (* "[WiFi] Connecting to %s" *)
| Dot               (* "." *)
| WifiConnected     (* "[WiFi] Connected! IP: %s" *)
| WifiFailed        (* "[WiFi] FAILED to connect. Check credentials." *)
| Ready.            (* the two "[READY]" lines *)

Inductive BootEvent :=
| BSerialBegin (baud : Z)
| BDelay (ms : Z)
| BPrint (line : BootLine)
| BPinMode
| BLed (l : level)
| BI2SDriver (port : Z)   (* i2s_driver_install, i2s_set_pin, i2s_zero_dma_buffer *)
| BWifiBegin.

(** The loop of [connectWiFi].  [status k] is what the [k]-th call of
    [WiFi.status()] reports ([true] for [WL_CONNECTED]); the result is the
    trace and the number of calls made.  [attempts] only grows and the loop
    stops at 30, so 30 iterations of [fuel] suffice. *)
Fixpoint wifi_wait (fuel : nat) (status : nat -> bool) (k : nat) (attempts : Z)
  : list BootEvent * nat :=
  if negb (status k) && (attempts <? 30) then
    match fuel with
    | O => ([], S k)
    | S fuel' =>
        let '(t, k') := wifi_wait fuel' status (S k) (attempts + 1) in
        (BDelay 500 :: BPrint Dot :: t, k')
    end
  else ([], S k).

Definition connectWiFi (status : nat -> bool) : list BootEvent :=
  let '(t, k) := wifi_wait 30 status 0 0 in
  [BPrint WifiConnecting; BWifiBegin] ++ t ++
  [BPrint (if status k then WifiConnected else WifiFailed)].

Definition setupI2SMic : list BootEvent := [BI2SDriver 0; BPrint MicReady].
Definition setupI2SDAC : list BootEvent := [BI2SDriver 1; BPrint DacReady].

(** [setup].  [psram] and [heap] are what [ps_malloc] and [malloc] return
    ([None] for a null pointer).  The result is [None] when the function
    never returns (the [while (true)] after the fatal message). *)
Definition setup (psram heap : option (list Z)) (status : nat -> bool)
  : option State * list BootEvent :=
  let start := [BSerialBegin 115200; BDelay 1000; BPrint Banner;
                BPinMode; BPinMode; BLed LOW] in
  let finish buf line :=
    (Some (initial buf),
     start ++ [BPrint line] ++ setupI2SMic ++ setupI2SDAC ++
     connectWiFi status ++ [BPrint Ready]) in
  match psram with
  | Some buf => finish buf MemPsram
  | None =>
      match heap with
      | Some buf => finish buf MemHeap
      | None => (None, start ++ [BPrint MemFatal])
      end
  end.

Definition is_bdelay500 (e : BootEvent) : bool :=
  match e with BDelay 500 => true | _ => false end.

Fixpoint bcount (f : BootEvent -> bool) (t : list BootEvent) : nat :=
  match t with
  | [] => 0%nat
  | e :: t' => ((if f e then 1 else 0) + bcount f t')%nat
  end.

(** The first call of [WiFi.status()] that reports a connection, among the
    first [n] calls from call [k] on. *)
Fixpoint first_connected (status : nat -> bool) (k n : nat) : option nat :=
  match n with
  | O => None
  | S n' => if status k then Some k else first_connected status (S k) n'
  end.

(* ===================================================================== *)
(** * Part II: properties                                                  *)
(* ===================================================================== *)

(** ** Bytes of a 32-bit word *)

Lemma testbit_u8 z k :
  0 <= k -> Z.testbit (u8 z) k = Z.testbit z k && (k <? 8).
Proof.
  intros Hk. unfold u8. change 255 with (Z.ones 8).
  rewrite Z.land_spec, Z.testbit_ones_nonneg by lia. reflexivity.
Qed.

Lemma testbit_u8_shift z j k :
  0 <= j ->
  Z.testbit (Z.shiftl (u8 (Z.shiftr z j)) j) k =
  Z.testbit z k && (j <=? k) && (k <? j + 8).
Proof.
  intros Hj. destruct (Z.leb_spec j k) as [Hjk|Hjk].
  - rewrite Z.shiftl_spec by lia. rewrite testbit_u8 by lia.
    rewrite Z.shiftr_spec by lia. replace (k - j + j) with k by lia.
    rewrite andb_true_r. f_equal.
    destruct (Z.ltb_spec (k - j) 8), (Z.ltb_spec k (j + 8)); auto; lia.
  - destruct (Z.neg_nonneg_cases k) as [Hn|Hn].
    + rewrite !Z.testbit_neg_r by lia. reflexivity.
    + rewrite Z.shiftl_spec_low by lia. rewrite andb_false_r. reflexivity.
Qed.

(** Splitting a 32-bit word into four bytes and reassembling them in
    little-endian order is the identity. *)
Lemma le32_of_u8 n :
  0 <= n < 2 ^ 32 ->
  Z.lor (u8 n)
    (Z.lor (Z.shiftl (u8 (Z.shiftr n 8)) 8)
       (Z.lor (Z.shiftl (u8 (Z.shiftr n 16)) 16)
              (Z.shiftl (u8 (Z.shiftr n 24)) 24))) = n.
Proof.
  intros Hn. apply Z.bits_inj'. intros k Hk.
  rewrite !Z.lor_spec, !testbit_u8_shift, testbit_u8 by lia.
  destruct (Z.ltb_spec k 32) as [Hlt|Hge].
  - destruct (Z.testbit n k); simpl; [|reflexivity].
    destruct (Z.ltb_spec k 8), (Z.leb_spec 8 k), (Z.ltb_spec k (8+8)),
      (Z.leb_spec 16 k), (Z.ltb_spec k (16+8)), (Z.leb_spec 24 k),
      (Z.ltb_spec k (24+8)); simpl; auto; lia.
  - assert (Z.testbit n k = false) as ->; [|reflexivity].
    destruct (Z.eq_dec n 0) as [->|Hnz]; [apply Z.bits_0|].
    apply Z.bits_above_log2; [lia|].
    assert (Z.log2 n < 32); [|lia]. apply Z.log2_lt_pow2; lia.
Qed.

Lemma u32_small z : 0 <= z < 2 ^ 32 -> u32 z = z.
Proof. intros H. unfold u32. apply Z.mod_small. exact H. Qed.

Lemma capacity_eq : capacity = 480044.
Proof. reflexivity. Qed.

Lemma MAX_AUDIO_BYTES_eq : MAX_AUDIO_BYTES = 480000.
Proof. reflexivity. Qed.

(** ** The header writer *)

(** The 44 bytes, field by field. *)
Lemma wavHeaderBytes_eq d :
  wavHeaderBytes d =
  let fileSize := u32 (d + WAV_HEADER_SIZE - 8) in
  [ 82; 73; 70; 70;
    u8 fileSize; u8 (Z.shiftr fileSize 8);
    u8 (Z.shiftr fileSize 16); u8 (Z.shiftr fileSize 24);
    87; 65; 86; 69;
    102; 109; 116; 32;
    16; 0; 0; 0;
    1; 0;
    1; 0;
    128; 62; 0; 0;
    0; 125; 0; 0;
    2; 0;
    16; 0;
    100; 97; 116; 97;
    u8 d; u8 (Z.shiftr d 8); u8 (Z.shiftr d 16); u8 (Z.shiftr d 24) ].
Proof. reflexivity. Qed.

Lemma wavHeaderBytes_length d : length (wavHeaderBytes d) = 44%nat.
Proof. reflexivity. Qed.

Lemma writeWavHeader_app hdr rest d :
  length hdr = 44%nat ->
  writeWavHeader (hdr ++ rest) d = wavHeaderBytes d ++ rest.
Proof.
  intros Hlen.
  do 44 (destruct hdr as [|? hdr]; [discriminate Hlen|]).
  destruct hdr; [|discriminate Hlen].
  reflexivity.
Qed.

Lemma writeWavHeader_split buf d :
  (44 <= length buf)%nat ->
  writeWavHeader buf d = wavHeaderBytes d ++ drop 44 buf.
Proof.
  intros Hlen. rewrite <- (take_drop 44 buf) at 1.
  apply writeWavHeader_app. rewrite length_take. lia.
Qed.

Lemma writeWavHeader_length buf d :
  length (writeWavHeader buf d) = length buf.
Proof. unfold writeWavHeader. rewrite !length_insert. reflexivity. Qed.

Lemma writeWavHeader_lookup_ge buf d (i : nat) :
  (44 <= i)%nat -> writeWavHeader buf d !! i = buf !! i.
Proof.
  intros Hi. unfold writeWavHeader.
  rewrite !list_lookup_insert_ne by lia. reflexivity.
Qed.

Lemma writeWavHeader_drop buf d :
  drop 44 (writeWavHeader buf d) = drop 44 buf.
Proof.
  apply list_eq. intros i. rewrite !lookup_drop.
  apply writeWavHeader_lookup_ge. lia.
Qed.

Lemma le32_at_header_data d rest :
  0 <= d < 2 ^ 32 -> le32_at (wavHeaderBytes d ++ rest) 40 = d.
Proof. intros Hd. rewrite wavHeaderBytes_eq. apply (le32_of_u8 d Hd). Qed.

Lemma le32_at_header_riff d rest :
  0 <= d + 36 < 2 ^ 32 -> le32_at (wavHeaderBytes d ++ rest) 4 = d + 36.
Proof.
  intros Hd. rewrite wavHeaderBytes_eq.
  replace (d + 36) with (u32 (d + WAV_HEADER_SIZE - 8))
    by (rewrite u32_small; unfold WAV_HEADER_SIZE; lia).
  apply le32_of_u8. unfold u32. apply Z.mod_pos_bound. lia.
Qed.

Lemma validateHeader_header d rest :
  validateHeader (wavHeaderBytes d ++ rest) = Some (le32_at (wavHeaderBytes d ++ rest) 40).
Proof.
  unfold validateHeader.
  destruct (Z.ltb_spec (Z.of_nat (length (wavHeaderBytes d ++ rest))) WAV_HEADER_SIZE) as [H|H].
  - rewrite length_app, wavHeaderBytes_length in H. unfold WAV_HEADER_SIZE in H. lia.
  - reflexivity.
Qed.

(** C8.  [writeWavHeader] touches only the first 44 bytes of the buffer:
    the length of the buffer and every byte at offset 44 or beyond (the
    payload already captured) are unchanged, and the 44 bytes it leaves are
    [wavHeaderBytes dataSize], which depends on [dataSize] and the format
    constants only, not on what the buffer held. *)
Theorem writeWavHeader_frame (buf : list Z) (dataSize : Z) :
  length (writeWavHeader buf dataSize) = length buf /\
  drop 44 (writeWavHeader buf dataSize) = drop 44 buf /\
  (forall i : nat, (44 <= i)%nat ->
     writeWavHeader buf dataSize !! i = buf !! i) /\
  ((44 <= length buf)%nat ->
     take 44 (writeWavHeader buf dataSize) = wavHeaderBytes dataSize /\
     forall buf' : list Z, (44 <= length buf')%nat ->
       take 44 (writeWavHeader buf' dataSize) =
       take 44 (writeWavHeader buf dataSize)).
Proof.
  split; [apply writeWavHeader_length|].
  split; [apply writeWavHeader_drop|].
  split; [intros i Hi; apply writeWavHeader_lookup_ge; exact Hi|].
  intros Hlen.
  assert (Htake : forall b : list Z, (44 <= length b)%nat ->
            take 44 (writeWavHeader b dataSize) = wavHeaderBytes dataSize).
  { intros b Hb. rewrite (writeWavHeader_split b dataSize Hb).
    apply take_app_length'. reflexivity. }
  split; [apply Htake; exact Hlen|].
  intros buf' Hlen'. rewrite (Htake buf Hlen). apply Htake. exact Hlen'.
Qed.

Lemma writeWavHeader_frame_witness :
  let buf := replicate 44 0 ++ [11; 22; 33; 44] in
  drop 44 (writeWavHeader buf 4) = [11; 22; 33; 44] /\
  writeWavHeader buf 4 !! 45%nat = Some 22 /\
  take 44 (writeWavHeader buf 4) = wavHeaderBytes 4.
Proof.
  intros buf.
  destruct (writeWavHeader_frame buf 4) as (_ & Hdrop & Hframe & Hhdr).
  split; [rewrite Hdrop; reflexivity|].
  split; [rewrite (Hframe 45%nat); [reflexivity|lia]|].
  destruct Hhdr as [Htake _]; [simpl; lia|exact Htake].
Defined.

(** C2.  Round trip of the declared length: for a payload size [n] with
    [0 < n <= capacity - header_size], the header written by
    [writeWavHeader buf n] into a buffer of at least 44 bytes is accepted
    by the decoder of the container contract, which returns exactly [n];
    and the RIFF size field at bytes 4..7 holds [n + 36]. *)
Theorem writeWavHeader_roundtrip (buf : list Z) (n : Z) :
  WAV_HEADER_SIZE <= Z.of_nat (length buf) ->
  0 < n <= capacity - WAV_HEADER_SIZE ->
  validateHeader (writeWavHeader buf n) = Some n /\
  le32_at (writeWavHeader buf n) 40 = n /\
  le32_at (writeWavHeader buf n) 4 = n + 36.
Proof.
  intros Hlen Hn. unfold WAV_HEADER_SIZE in Hlen.
  rewrite capacity_eq in Hn. unfold WAV_HEADER_SIZE in Hn.
  rewrite writeWavHeader_split by lia.
  rewrite validateHeader_header.
  rewrite le32_at_header_data by lia.
  rewrite le32_at_header_riff by lia.
  auto.
Qed.

Lemma writeWavHeader_roundtrip_witness :
  validateHeader (writeWavHeader (replicate 48 0) 32000) = Some 32000 /\
  le32_at (writeWavHeader (replicate 48 0) 32000) 40 = 32000 /\
  le32_at (writeWavHeader (replicate 48 0) 32000) 4 = 32000 + 36.
Proof.
  apply (writeWavHeader_roundtrip (replicate 48 0) 32000).
  - vm_compute. discriminate.
  - vm_compute. split; [reflexivity|discriminate].
Defined.

(** ** The duration test of [loop], in IEEE arithmetic *)

Lemma div_eucl_pair a b : Z.div_eucl a b = (a / b, a mod b).
Proof. unfold Z.div, Z.modulo. destruct (Z.div_eucl a b). reflexivity. Qed.

Lemma round_ne_with_logs prec emin p q lp lq :
  0 <= lp -> 2 ^ lp <= p < 2 ^ (lp + 1) -> Z.log2 q = lq ->
  round_ne prec emin p q = round_at (pick_exp prec emin p q lp lq) p q.
Proof.
  intros Hlp Hp Hq. unfold round_ne, round_at, pick_exp.
  assert (0 < p) by (pose proof (Z.pow_pos_nonneg 2 lp); lia).
  destruct (Z.eqb_spec p 0) as [->|_]; [lia|].
  rewrite (Z.log2_unique p lp Hlp Hp), Hq. cbv zeta.
  rewrite div_eucl_pair. reflexivity.
Qed.

(** [(float) 32000] and the literal [0.3]; the latter lies below 3/10. *)
Lemma float_32000 :
  float_of_uint (SAMPLE_RATE * BYTES_PER_SAMPLE) = Dy 16384000 (-9).
Proof. vm_compute. reflexivity. Qed.

Lemma double_0_3_eq : double_0_3 = Dy 5404319552844595 (-54).
Proof. vm_compute. reflexivity. Qed.

(** An integer below [2^24] converts to [float] exactly. *)
Lemma float_of_uint_binade k n :
  0 <= k <= 23 -> 2 ^ k <= n < 2 ^ (k + 1) ->
  float_of_uint n = Dy (n * 2 ^ (23 - k)) (k - 23).
Proof.
  intros Hk Hn. unfold float_of_uint, binary32.
  rewrite (round_ne_with_logs 24 (-149) n 1 k 0) by (try reflexivity; lia).
  assert (H23 : 2 ^ 23 = 2 ^ k * 2 ^ (23 - k)).
  { rewrite <- Z.pow_add_r by lia. f_equal. lia. }
  assert (Hpos : 0 < 2 ^ (23 - k)) by (apply Z.pow_pos_nonneg; lia).
  assert (He : pick_exp 24 (-149) n 1 k 0 = k - 23).
  { unfold pick_exp, scaled_num, scaled_den. cbv zeta.
    replace (k - 0 - 24 + 1) with (k - 23) by lia.
    rewrite (Z.max_r 0 (- (k - 23))) by lia.
    rewrite (Z.max_l 0 (k - 23)) by lia.
    replace (- (k - 23)) with (23 - k) by lia.
    destruct (Z.ltb_spec (n * 2 ^ (23 - k)) (2 ^ (24 - 1) * (1 * 2 ^ 0))) as [Hlt|Hge].
    - exfalso. change (2 ^ (24 - 1) * (1 * 2 ^ 0)) with (2 ^ 23) in Hlt.
      rewrite H23 in Hlt. nia.
    - lia. }
  rewrite He. unfold round_at, scaled_num, scaled_den. cbv zeta.
  rewrite (Z.max_r 0 (- (k - 23))) by lia.
  rewrite (Z.max_l 0 (k - 23)) by lia.
  replace (- (k - 23)) with (23 - k) by lia.
  change (1 * 2 ^ 0) with 1.
  rewrite Z.mod_1_r, Z.div_1_r. reflexivity.
Qed.

(** Evaluation of the closed integer subterms of the goal (those that do
    not mention [n]). *)
Ltac closed_eval n t :=
  lazymatch t with
  | context [n] => fail
  | _ => let v := eval vm_compute in t in progress change t with v
  end.

Ltac norm_closed n :=
  repeat match goal with
  | |- context [Z.max ?a ?b] => closed_eval n (Z.max a b)
  | |- context [Z.min ?a ?b] => closed_eval n (Z.min a b)
  | |- context [?a - ?b] => closed_eval n (a - b)
  | |- context [?a + ?b] => closed_eval n (a + b)
  | |- context [- ?a] => closed_eval n (- a)
  | |- context [?a ^ ?b] => closed_eval n (a ^ b)
  | |- context [?a * ?b] => closed_eval n (a * b)
  end.

(** For [n] in the binade [2^k, 2^(k+1)): reduce [long_enough n] to integer
    comparisons on [n]. *)
Ltac binade n k :=
  unfold long_enough, durationSecs;
  rewrite float_32000, double_0_3_eq;
  rewrite (float_of_uint_binade k n) by lia;
  unfold float_div; cbn [dmant dexp]; norm_closed n;
  rewrite <- ?Z.mul_assoc; norm_closed n;
  unfold binary32;
  lazymatch goal with
  | |- context [round_ne _ _ (n * ?a) ?b] =>
      let K := eval vm_compute in (Z.log2 (2 ^ k * a)) in
      let Lb := eval vm_compute in (Z.log2 b) in
      rewrite (round_ne_with_logs 24 (-149) (n * a) b K Lb)
        by first [reflexivity | lia]
  end;
  unfold pick_exp, scaled_num, scaled_den; cbv zeta; norm_closed n;
  rewrite <- ?Z.mul_assoc; norm_closed n;
  lazymatch goal with
  | |- context [if ?x <? ?y then _ else _] => destruct (Z.ltb_spec x y)
  end;
  norm_closed n;
  unfold round_at, scaled_num, scaled_den; cbv zeta; norm_closed n;
  rewrite <- ?Z.mul_assoc; norm_closed n.

Ltac split_tests :=
  repeat match goal with
  | |- context [?a <? ?b] => destruct (Z.ltb_spec a b)
  | |- context [?a <=? ?b] => destruct (Z.leb_spec a b)
  | |- context [?a =? ?b] => destruct (Z.eqb_spec a b)
  | |- context [Z.odd ?a] => destruct (Z.odd a)
  end.

Ltac decide_binade n :=
  split_tests; cbn [orb andb];
  unfold dyadic_gtb; cbn [dmant dexp]; norm_closed n;
  split_tests; try reflexivity; exfalso;
  Z.div_mod_to_equations; lia.

Lemma long_enough_binade k n :
  0 <= k <= 18 -> 2 ^ k <= n < 2 ^ (k + 1) ->
  long_enough n = (3 * (SAMPLE_RATE * BYTES_PER_SAMPLE) <=? 10 * n).
Proof.
  intros Hk Hn.
  assert (Hcases : k = 0 \/ k = 1 \/ k = 2 \/ k = 3 \/ k = 4 \/ k = 5 \/
                   k = 6 \/ k = 7 \/ k = 8 \/ k = 9 \/ k = 10 \/ k = 11 \/
                   k = 12 \/ k = 13 \/ k = 14 \/ k = 15 \/ k = 16 \/
                   k = 17 \/ k = 18) by lia.
  repeat (destruct Hcases as [-> | Hcases]); [.. | subst k].
  all: match type of Hn with 2 ^ ?k <= _ < _ => binade n k end.
  all: decide_binade n.
Qed.

(** In binary32/binary64 arithmetic the test [durationSecs > 0.3] succeeds
    exactly from 0.3 s of audio on: at 9600 bytes the quotient rounds to the
    [float] nearest to 0.3, which lies above the [double] nearest to 0.3. *)
Lemma long_enough_threshold n :
  0 <= n <= MAX_AUDIO_BYTES ->
  long_enough n = (3 * (SAMPLE_RATE * BYTES_PER_SAMPLE) <=? 10 * n).
Proof.
  intros Hn. rewrite MAX_AUDIO_BYTES_eq in Hn.
  destruct (Z.eq_dec n 0) as [->|Hnz]; [vm_compute; reflexivity|].
  assert (Hpos : 0 < n) by lia.
  pose proof (Z.log2_spec n Hpos) as Hlog.
  pose proof (Z.log2_nonneg n) as Hlog0.
  assert (Z.log2 n < 19) by (apply Z.log2_lt_pow2; lia).
  apply (long_enough_binade (Z.log2 n)); [lia|].
  replace (Z.log2 n + 1) with (Z.succ (Z.log2 n)) by lia. exact Hlog.
Qed.

(** ** Traces *)

Lemma count_app f (t1 t2 : Trace) :
  count f (t1 ++ t2) = (count f t1 + count f t2)%nat.
Proof. induction t1 as [|e t1 IH]; simpl; [reflexivity|rewrite IH; lia]. Qed.

Lemma count_cons f e (t : Trace) :
  count f (e :: t) = ((if f e then 1 else 0) + count f t)%nat.
Proof. reflexivity. Qed.

Lemma payload_written_app t1 t2 :
  payload_written (t1 ++ t2) = payload_written t1 + payload_written t2.
Proof.
  induction t1 as [|e t1 IH]; [reflexivity|].
  destruct e; simpl; rewrite ?IH; lia.
Qed.

(** ** Playback *)

Lemma i2s_write_bounds accepts size :
  0 <= size -> 0 <= i2s_write accepts size <= size.
Proof. unfold i2s_write. lia. Qed.

(** Whatever the driver takes, the loop only offers bytes of
    [offset, totalBytes) and leaves the globals alone; it returns or is
    still offering. *)
Lemma play_loop_shape dac : forall offset totalBytes s,
  0 <= offset -> totalBytes < 2 ^ 32 ->
  exists t,
    Forall (dac_call offset totalBytes) t /\
    (play_loop dac offset totalBytes s = Done tt s t \/
     play_loop dac offset totalBytes s = Blocked s t).
Proof.
  induction dac as [|accepts dac IH]; intros offset totalBytes s Hoff Htot.
  - exists []. split; [constructor|]. simpl.
    destruct (offset <? totalBytes); auto.
  - cbn [play_loop]. destruct (Z.ltb_spec offset totalBytes) as [Hlt|Hge].
    2:{ exists []. split; [constructor|]. left. reflexivity. }
    rewrite (u32_small (totalBytes - offset)) by lia. cbv zeta.
    set (toWrite := Z.min 1024 (totalBytes - offset)).
    assert (Hw : 1 <= toWrite <= 1024 /\ toWrite <= totalBytes - offset)
      by (unfold toWrite; lia).
    pose proof (i2s_write_bounds accepts toWrite ltac:(lia)) as Hwr.
    rewrite (u32_small (offset + i2s_write accepts toWrite)) by lia.
    destruct (IH (offset + i2s_write accepts toWrite) totalBytes s)
      as (t & Hall & Hrun); [lia..|].
    exists (I2SWrite offset toWrite :: t). split.
    + constructor; [simpl; lia|].
      eapply Forall_impl; [exact Hall|].
      intros [] He; simpl in *; auto; lia.
    + unfold bind, emit. destruct Hrun as [-> | ->]; auto.
Qed.

Lemma playAudio_shape dac totalBytes s :
  0 <= totalBytes < 2 ^ 32 ->
  exists t,
    Forall (dac_call WAV_HEADER_SIZE totalBytes) t /\
    (playAudio dac totalBytes s =
       Done tt s (Serial (PlayStart totalBytes) :: t ++ [I2SZeroDma; Serial PlayDone]) \/
     playAudio dac totalBytes s = Blocked s (Serial (PlayStart totalBytes) :: t)).
Proof.
  intros Htot.
  destruct (play_loop_shape dac WAV_HEADER_SIZE totalBytes s)
    as (t & Hall & Hrun); [unfold WAV_HEADER_SIZE; lia..|].
  exists t. split; [exact Hall|].
  unfold playAudio, bind, emit. destruct Hrun as [-> | ->]; auto.
Qed.

Lemma dac_call_is_write lo hi e : dac_call lo hi e -> is_i2s_write e = true.
Proof. destruct e; simpl; tauto. Qed.

Lemma count_dac_calls f lo hi (t : Trace) :
  (forall e, is_i2s_write e = true -> f e = false) ->
  Forall (dac_call lo hi) t -> count f t = 0%nat.
Proof.
  intros Hf Hall. induction Hall as [|e t He _ IH]; [reflexivity|].
  rewrite count_cons, (Hf e (dac_call_is_write _ _ _ He)), IH. reflexivity.
Qed.


(** ** Commands *)

Lemma bind_emit {B} e (k : Cmd B) s : (emit e ;; k) s = with_prefix [e] (k s).
Proof. unfold bind, emit. destruct (k s); reflexivity. Qed.

Lemma bind_modify {B} f (k : Cmd B) s : (modify f ;; k) s = k (f s).
Proof. unfold bind, modify. destruct (k (f s)); reflexivity. Qed.

Lemma bind_get {B} (k : State -> Cmd B) s : (x <- get ;; k x) s = k s s.
Proof. unfold bind, get. destruct (k s s); reflexivity. Qed.

Lemma bind_ret {A B} (a : A) (k : A -> Cmd B) s : (x <- ret a ;; k x) s = k a s.
Proof. unfold bind, ret. destruct (k a s); reflexivity. Qed.

Lemma bind_store {B} off data (k : Cmd B) s :
  (store_bytes off data ;; k) s =
  with_prefix [BufWrite off (Z.of_nat (length data))]
    (k (set_buffer (list_inserts (Z.to_nat off) data (audioBuffer s)) s)).
Proof.
  unfold store_bytes, bind, modify, emit.
  destruct (k _); reflexivity.
Qed.

Lemma with_prefix_state {A} t (o : Outcome A) : out_state (with_prefix t o) = out_state o.
Proof. destruct o; reflexivity. Qed.

Lemma with_prefix_trace {A} t (o : Outcome A) :
  out_trace (with_prefix t o) = t ++ out_trace o.
Proof. destruct o; reflexivity. Qed.

Lemma with_prefix_returned {A} t (o : Outcome A) :
  returned (with_prefix t o) = returned o.
Proof. destruct o; reflexivity. Qed.

Lemma with_prefix_Done {A} t0 (o : Outcome A) a s t :
  with_prefix t0 o = Done a s t -> exists t', o = Done a s t' /\ t = t0 ++ t'.
Proof. destruct o; simpl; intros H; inversion H; subst; eauto. Qed.

Lemma with_prefix_prefix {A} t1 t2 (o : Outcome A) :
  with_prefix t1 (with_prefix t2 o) = with_prefix (t1 ++ t2) o.
Proof. destruct o; simpl; rewrite app_assoc; reflexivity. Qed.

(** ** The response read loop, step by step *)

Lemma read_loop_exit L ps b s :
  ~ b < u32 L -> read_loop L ps b s = Done b s [].
Proof.
  intros H. destruct ps; simpl;
    (destruct (Z.ltb_spec b (u32 L)); [lia|reflexivity]).
Qed.

Lemma read_loop_pending L b s :
  b < u32 L -> read_loop L [] b s = Blocked s [].
Proof. intros H. simpl. destruct (Z.ltb_spec b (u32 L)); [reflexivity|lia]. Qed.

Lemma read_loop_empty_poll L p ps b s :
  b < u32 L -> polled p = 0 ->
  read_loop L (p :: ps) b s = (emit (Delay 1) ;; read_loop L ps b) s.
Proof.
  intros H H0. simpl. destruct (Z.ltb_spec b (u32 L)); [|lia].
  rewrite H0. reflexivity.
Qed.

Lemma read_loop_data_poll L p ps b s :
  b < u32 L -> polled p <> 0 ->
  read_loop L (p :: ps) b s =
  let toRead := Z.min (polled p) (u32 (L - b)) in
  let data := take (Z.to_nat toRead) (incoming p) in
  (store_bytes b data ;; read_loop L ps (u32 (b + Z.of_nat (length data)))) s.
Proof.
  intros H H0. simpl. destruct (Z.ltb_spec b (u32 L)); [|lia].
  destruct (Z.eqb_spec (polled p) 0); [lia|]. reflexivity.
Qed.

Lemma read_chunk_bounds L b p :
  0 <= L < 2 ^ 32 -> 0 <= b < L ->
  let toRead := Z.min (polled p) (u32 (L - b)) in
  let data := take (Z.to_nat toRead) (incoming p) in
  0 <= Z.of_nat (length data) <= L - b /\
  u32 (b + Z.of_nat (length data)) = b + Z.of_nat (length data).
Proof.
  intros HL Hb toRead data.
  assert (Hlen : 0 <= Z.of_nat (length data) <= L - b).
  { unfold data. rewrite length_take.
    assert (toRead <= L - b).
    { unfold toRead. rewrite (u32_small (L - b)) by lia. lia. }
    lia. }
  split; [exact Hlen|]. apply u32_small. lia.
Qed.

(** The loop returns only with the whole declared length read; it touches
    nothing but the buffer contents, and stores only inside [b, L). *)
Lemma read_loop_spec L :
  0 <= L < 2 ^ 32 ->
  forall ps b s, 0 <= b <= L ->
  let o := read_loop L ps b s in
  (forall n s' t, o = Done n s' t -> n = L) /\
  audioBufferPos (out_state o) = audioBufferPos s /\
  isRecording (out_state o) = isRecording s /\
  lastButtonState (out_state o) = lastButtonState s /\
  length (audioBuffer (out_state o)) = length (audioBuffer s) /\
  Forall (read_event b L) (out_trace o).
Proof.
  intros HL ps. induction ps as [|p ps IH]; intros b s Hb o; subst o.
  - destruct (Z.lt_ge_cases b (u32 L)) as [Hlt|Hge].
    + rewrite read_loop_pending by exact Hlt. simpl.
      repeat split; auto. discriminate.
    + rewrite read_loop_exit by lia. simpl.
      rewrite u32_small in Hge by lia.
      repeat split; auto. intros n s' t H; inversion H; lia.
  - destruct (Z.lt_ge_cases b (u32 L)) as [Hlt|Hge].
    2:{ rewrite read_loop_exit by lia. simpl.
        rewrite u32_small in Hge by lia.
        repeat split; auto. intros n s' t H; inversion H; lia. }
    assert (Hb' : 0 <= b < L) by (rewrite u32_small in Hlt by lia; lia).
    destruct (Z.eq_dec (polled p) 0) as [H0|H0].
    + rewrite read_loop_empty_poll by assumption. rewrite bind_emit.
      destruct (IH b s Hb) as (Hn & Hp & Hr & Hl & Hlen & Hev).
      rewrite with_prefix_state, with_prefix_trace.
      repeat split; auto.
      * intros n s' t H. apply with_prefix_Done in H as (t' & H & _). eauto.
      * constructor; [exact I|exact Hev].
    + rewrite read_loop_data_poll by assumption. cbv zeta.
      destruct (read_chunk_bounds L b p HL Hb') as [Hlen Hu]. cbv zeta in Hlen, Hu.
      set (data := take _ (incoming p)) in *.
      rewrite bind_store, Hu.
      set (s1 := set_buffer _ s).
      destruct (IH (b + Z.of_nat (length data)) s1) as (Hn & Hp & Hr & Hl & Hlen' & Hev); [lia|].
      rewrite with_prefix_state, with_prefix_trace.
      repeat split; auto.
      * intros n s' t H. apply with_prefix_Done in H as (t' & H & _). eauto.
      * rewrite Hlen'. unfold s1. simpl. apply length_inserts.
      * constructor; [simpl; lia|].
        eapply Forall_impl; [exact Hev|].
        intros [] He; simpl in *; auto; lia.
Qed.

(** The stores of the loop follow one another from [b]; the loop has
    returned exactly when they have reached the declared length. *)
Lemma read_loop_received L :
  0 <= L < 2 ^ 32 ->
  forall ps b s, 0 <= b <= L ->
  let o := read_loop L ps b s in
  exists n, received b (out_trace o) = Some n /\ b <= n <= L /\
            (returned o = true <-> n = L).
Proof.
  intros HL ps. induction ps as [|p ps IH]; intros b s Hb o; subst o.
  - destruct (Z.lt_ge_cases b (u32 L)) as [Hlt|Hge].
    + rewrite read_loop_pending by exact Hlt. simpl.
      rewrite u32_small in Hlt by lia.
      exists b. split; [reflexivity|]. split; [lia|]. split; [discriminate|lia].
    + rewrite read_loop_exit by lia. simpl.
      rewrite u32_small in Hge by lia.
      exists b. split; [reflexivity|]. split; [lia|]. split; [lia|reflexivity].
  - destruct (Z.lt_ge_cases b (u32 L)) as [Hlt|Hge].
    2:{ rewrite read_loop_exit by lia. simpl.
        rewrite u32_small in Hge by lia.
        exists b. split; [reflexivity|]. split; [lia|]. split; [lia|reflexivity]. }
    assert (Hb' : 0 <= b < L) by (rewrite u32_small in Hlt by lia; lia).
    destruct (Z.eq_dec (polled p) 0) as [H0|H0].
    + rewrite read_loop_empty_poll by assumption. rewrite bind_emit.
      destruct (IH b s Hb) as (n & Hrec & Hn & Hret).
      rewrite with_prefix_trace, with_prefix_returned.
      exists n. simpl. auto.
    + rewrite read_loop_data_poll by assumption. cbv zeta.
      destruct (read_chunk_bounds L b p HL Hb') as [Hlen Hu]. cbv zeta in Hlen, Hu.
      set (data := take _ (incoming p)) in *.
      rewrite bind_store, Hu.
      set (s1 := set_buffer _ s).
      destruct (IH (b + Z.of_nat (length data)) s1) as (n & Hrec & Hn & Hret); [lia|].
      rewrite with_prefix_trace, with_prefix_returned.
      exists n. simpl. rewrite Z.eqb_refl. split; [exact Hrec|]. split; [lia|exact Hret].
Qed.


Lemma bind_assoc {A B C} (c : Cmd A) (k : A -> Cmd B) (h : B -> Cmd C) s :
  (y <- (x <- c ;; k x) ;; h y) s = (x <- c ;; y <- k x ;; h y) s.
Proof.
  unfold bind. destruct (c s) as [a s1 t1|s1 t1]; [|reflexivity].
  destruct (k a s1) as [b s2 t2|s2 t2]; [|reflexivity].
  destruct (h b s2); rewrite app_assoc; reflexivity.
Qed.

(** ** The four ways through [sendAudioToServer] *)

Lemma send_offline r dac s : sendAudioToServer false r dac s = Done tt s [Serial WifiSkip].
Proof. reflexivity. Qed.

Lemma send_error r dac s :
  httpCode r <> 200 ->
  sendAudioToServer true r dac s =
  Done tt s (post_prefix s ++ [Serial (HttpError (httpCode r)); HttpEnd; Led LOW]).
Proof.
  intros H. unfold sendAudioToServer.
  destruct (Z.eqb_spec (httpCode r) 200) as [|_]; [contradiction|]. reflexivity.
Qed.

Lemma send_text r dac s :
  httpCode r = 200 -> is_audio_reply r = false ->
  sendAudioToServer true r dac s =
  Done tt s (post_prefix s ++
             [Serial (ResponseReceived 200); Serial (ServerText (getString r));
              HttpEnd; Led LOW]).
Proof.
  intros H Ha. unfold sendAudioToServer. rewrite H, Ha. reflexivity.
Qed.

Lemma send_too_large r dac s :
  httpCode r = 200 -> is_audio_reply r = true ->
  MAX_AUDIO_BYTES + WAV_HEADER_SIZE < getSize r ->
  sendAudioToServer true r dac s =
  Done tt s (post_prefix s ++
             [Serial (ResponseReceived 200); Serial (AudioResponse (getSize r));
              Serial TooLarge; HttpEnd; Led LOW]).
Proof.
  intros H Ha Hbig. unfold sendAudioToServer. rewrite H, Ha.
  destruct (Z.leb_spec (getSize r) (MAX_AUDIO_BYTES + WAV_HEADER_SIZE)); [lia|].
  reflexivity.
Qed.

Lemma send_audio r dac s :
  httpCode r = 200 -> is_audio_reply r = true ->
  getSize r <= MAX_AUDIO_BYTES + WAV_HEADER_SIZE ->
  sendAudioToServer true r dac s =
  with_prefix
    (post_prefix s ++
     [Serial (ResponseReceived 200); Serial (AudioResponse (getSize r))])
    ((bytesRead <- read_loop (getSize r) (polls r) 0 ;;
      playAudio dac bytesRead ;; emit HttpEnd ;; emit (Led LOW)) s).
Proof.
  intros H Ha Hfit. unfold sendAudioToServer. rewrite H, Ha.
  destruct (Z.leb_spec (getSize r) (MAX_AUDIO_BYTES + WAV_HEADER_SIZE)); [|lia].
  unfold bind, get, emit, with_prefix, post_prefix. cbn [negb Z.eqb Pos.eqb].
  destruct (read_loop _ _ _ _) as [n s1 t1|s1 t1]; [|reflexivity].
  destruct (playAudio dac n s1) as [[] s2 t2|s2 t2]; simpl;
    rewrite <- ?app_assoc; reflexivity.
Qed.

Lemma is_audio_reply_size r : is_audio_reply r = true -> WAV_HEADER_SIZE < getSize r.
Proof.
  unfold is_audio_reply. intros H. apply andb_true_iff in H as [_ H].
  apply Z.ltb_lt. exact H.
Qed.

Lemma read_events_count f lo hi (t : Trace) :
  (forall e, read_event lo hi e -> f e = false) ->
  Forall (read_event lo hi) t -> count f t = 0%nat.
Proof.
  intros Hf Hall. induction Hall as [|e t He _ IH]; [reflexivity|].
  rewrite count_cons, (Hf e He), IH. reflexivity.
Qed.

(** The audio branch, in full: the read loop stores the reply from offset 0
    on; while fewer than [L] bytes have arrived nothing else happens, and
    once [L] bytes are stored playback of [L] bytes is started, which
    returns (and the connection is closed) or is still feeding the DAC. *)
Lemma receive_and_play L ps dac s :
  0 <= L < 2 ^ 32 ->
  let o := (bytesRead <- read_loop L ps 0 ;;
            playAudio dac bytesRead ;; emit HttpEnd ;; emit (Led LOW)) s in
  exists s1 t1,
    out_state o = s1 /\
    audioBufferPos s1 = audioBufferPos s /\
    isRecording s1 = isRecording s /\
    lastButtonState s1 = lastButtonState s /\
    length (audioBuffer s1) = length (audioBuffer s) /\
    Forall (read_event 0 L) t1 /\
    ((read_loop L ps 0 s = Blocked s1 t1 /\
      (exists n, received 0 t1 = Some n /\ 0 <= n < L) /\
      o = Blocked s1 t1) \/
     (read_loop L ps 0 s = Done L s1 t1 /\
      received 0 t1 = Some L /\
      exists tp, Forall (dac_call WAV_HEADER_SIZE L) tp /\
        (o = Done tt s1 (t1 ++ Serial (PlayStart L) :: tp ++
                         [I2SZeroDma; Serial PlayDone; HttpEnd; Led LOW]) \/
         o = Blocked s1 (t1 ++ Serial (PlayStart L) :: tp)))).
Proof.
  intros HL o.
  destruct (read_loop_spec L HL ps 0 s) as (Hn & Hp & Hr & Hl & Hlen & Hev); [lia|].
  destruct (read_loop_received L HL ps 0 s) as (n & Hrec & Hnb & Hret); [lia|].
  destruct (read_loop L ps 0 s) as [m s1 t1|s1 t1] eqn:Hrl; simpl in *.
  - rewrite (Hn m s1 t1 eq_refl) in *.
    assert (n = L) as -> by (apply Hret; reflexivity).
    destruct (playAudio_shape dac L s1 HL) as (tp & Hall & Hplay).
    exists s1, t1.
    assert (Hs1 : out_state o = s1).
    { subst o. unfold bind. rewrite Hrl.
      destruct Hplay as [-> | ->]; reflexivity. }
    repeat (split; [assumption|]).
    right. split; [reflexivity|]. split; [exact Hrec|].
    exists tp. split; [exact Hall|].
    subst o. unfold bind. rewrite Hrl.
    destruct Hplay as [-> | ->]; [left|right]; simpl.
    + rewrite <- app_assoc. reflexivity.
    + reflexivity.
  - exists s1, t1.
    assert (Ho : o = Blocked s1 t1).
    { subst o. unfold bind. rewrite Hrl. reflexivity. }
    rewrite Ho. simpl.
    repeat (split; [assumption || reflexivity|]).
    left. split; [reflexivity|]. split; [|reflexivity].
    exists n. split; [exact Hrec|].
    destruct (Z.eq_dec n L) as [->|]; [|lia].
    destruct Hret as [_ Hret]. specialize (Hret eq_refl). discriminate.
Qed.

(** What the audio branch adds to the trace, counted. *)
Lemma receive_and_play_counts L ps dac s :
  0 <= L < 2 ^ 32 ->
  let o := (bytesRead <- read_loop L ps 0 ;;
            playAudio dac bytesRead ;; emit HttpEnd ;; emit (Led LOW)) s in
  count is_play (out_trace o) =
    (if returned (read_loop L ps 0 s) then 1 else 0)%nat /\
  count is_post (out_trace o) = 0%nat /\
  audioBufferPos (out_state o) = audioBufferPos s /\
  isRecording (out_state o) = isRecording s /\
  lastButtonState (out_state o) = lastButtonState s /\
  length (audioBuffer (out_state o)) = length (audioBuffer s) /\
  Forall (fun e => is_bufwrite e = true -> read_event 0 L e) (out_trace o).
Proof.
  intros HL o.
  destruct (receive_and_play L ps dac s HL)
    as (s1 & t1 & Hs1 & Hp & Hr & Hl & Hlen & Hev & Hcase).
  fold o in Hs1, Hcase. rewrite Hs1.
  assert (Hev' : Forall (fun e => is_bufwrite e = true -> read_event 0 L e) t1).
  { eapply Forall_impl; [exact Hev|]. auto. }
  destruct Hcase as [(Hrl & _ & Ho) | (Hrl & _ & tp & Hall & Ho)].
  - rewrite Ho, Hrl. simpl.
    rewrite !(read_events_count _ 0 L t1) by (first [exact Hev | intros []; simpl; tauto]).
    repeat split; auto.
  - assert (Hall' : Forall (fun e => is_bufwrite e = true -> read_event 0 L e) tp).
    { eapply Forall_impl; [exact Hall|]. intros []; simpl; try tauto; discriminate. }
    rewrite Hrl. cbn [returned].
    destruct Ho as [-> | ->]; cbn [out_trace];
      rewrite !count_app, !count_cons, ?count_app;
      rewrite !(read_events_count _ 0 L t1)
        by (first [exact Hev | intros []; simpl; tauto]);
      rewrite !(count_dac_calls _ WAV_HEADER_SIZE L tp)
        by (first [exact Hall | intros []; simpl; congruence]);
      (repeat split; auto);
      (apply Forall_app; split; [exact Hev'|]);
      (constructor; [discriminate|]); try exact Hall'.
    apply Forall_app. split; [exact Hall'|repeat constructor; discriminate].
Qed.

Lemma polled_bounds p : 0 <= polled p < 2 ^ 32.
Proof. unfold polled, u32. apply Z.mod_pos_bound. lia. Qed.


Lemma polled_le_incoming p :
  well_behaved p -> polled p <= Z.of_nat (length (incoming p)).
Proof.
  unfold well_behaved, polled, u32. intros H.
  pose proof (Z.mod_le (available p) (2 ^ 32)). lia.
Qed.

Lemma total_available_nonneg ps :
  Forall well_behaved ps -> 0 <= total_available ps.
Proof.
  induction 1 as [|p ps Hp _ IH]; simpl; [lia|].
  pose proof (polled_bounds p). lia.
Qed.

Lemma read_loop_completes L :
  0 <= L < 2 ^ 32 ->
  forall ps b s, 0 <= b <= L ->
  Forall well_behaved ps -> L - b <= total_available ps ->
  exists s' t, read_loop L ps b s = Done L s' t.
Proof.
  intros HL ps. induction ps as [|p ps IH]; intros b s Hb Hwb Htot.
  - simpl in Htot. assert (b = L) as -> by lia.
    exists s, []. apply read_loop_exit. rewrite u32_small by lia. lia.
  - destruct (Z.lt_ge_cases b L) as [Hlt|Hge].
    2:{ assert (b = L) as -> by lia.
        exists s, []. apply read_loop_exit. rewrite u32_small by lia. lia. }
    inversion Hwb as [|? ? Hp Hps]; subst. simpl in Htot.
    apply polled_le_incoming in Hp. pose proof (polled_bounds p) as Hpb.
    pose proof (total_available_nonneg ps Hps) as Hnn.
    destruct (Z.eq_dec (polled p) 0) as [H0|H0].
    + rewrite read_loop_empty_poll by (rewrite ?u32_small by lia; lia).
      rewrite bind_emit.
      destruct (IH b s Hb Hps) as (s' & t & Hrl); [lia|].
      rewrite Hrl. simpl. eauto.
    + rewrite read_loop_data_poll by (rewrite ?u32_small by lia; lia).
      cbv zeta.
      destruct (read_chunk_bounds L b p HL (conj (proj1 Hb) Hlt)) as [Hlen Hu].
      cbv zeta in Hlen, Hu.
      assert (Hgot : Z.of_nat (length (take (Z.to_nat (Z.min (polled p) (u32 (L - b)))) (incoming p)))
                     = Z.min (polled p) (L - b)).
      { rewrite length_take, (u32_small (L - b)) by lia.
        lia. }
      rewrite bind_store, Hu, Hgot.
      match goal with |- context [read_loop L ps ?b' ?s1] =>
        destruct (IH b' s1) as (s' & t & Hrl);
          [clear Hlen Hu Hgot; lia|exact Hps|clear Hlen Hu Hgot; lia|] end.
      rewrite Hrl. simpl. eauto.
Qed.


(** ** [captureAudioChunk], case by case *)

Lemma capture_idle rd s :
  isRecording s = false -> captureAudioChunk rd s = Done tt s [].
Proof. intros H. unfold captureAudioChunk. rewrite bind_get, H. reflexivity. Qed.

Lemma capture_nothing rd s :
  i2s_ok rd = false \/ take (Z.to_nat I2S_READ_BUF_SIZE) (i2s_data rd) = [] ->
  captureAudioChunk rd s = Done tt s [].
Proof.
  intros H. unfold captureAudioChunk. rewrite bind_get.
  destruct (isRecording s); [|reflexivity]. unfold i2s_read. cbn [negb].
  destruct H as [-> | ->]; [reflexivity|].
  rewrite andb_false_r. reflexivity.
Qed.

Lemma capture_store rd s :
  let readBuf := take (Z.to_nat I2S_READ_BUF_SIZE) (i2s_data rd) in
  let bytesRead := Z.of_nat (length readBuf) in
  isRecording s = true -> i2s_ok rd = true -> 0 < bytesRead ->
  0 <= audioBufferPos s -> audioBufferPos s + bytesRead <= capacity ->
  captureAudioChunk rd s =
  Done tt (mkState (list_inserts (Z.to_nat (audioBufferPos s)) readBuf (audioBuffer s))
                   (audioBufferPos s + bytesRead) true (lastButtonState s))
          [BufWrite (audioBufferPos s) bytesRead].
Proof.
  intros readBuf bytesRead Hrec Hok Hpos H0 Hfit.
  unfold captureAudioChunk. rewrite bind_get, Hrec. unfold i2s_read. cbn [negb].
  fold readBuf. fold bytesRead. rewrite Hok.
  destruct (Z.ltb_spec 0 bytesRead); [|lia]. cbn [andb].
  rewrite capacity_eq in Hfit.
  rewrite (u32_small (audioBufferPos s + bytesRead)) by lia.
  destruct (Z.leb_spec (audioBufferPos s + bytesRead) (MAX_AUDIO_BYTES + WAV_HEADER_SIZE)) as [_|Hgt];
    [|rewrite MAX_AUDIO_BYTES_eq in Hgt; unfold WAV_HEADER_SIZE in Hgt; lia].
  rewrite bind_store. unfold modify, set_pos, set_buffer. simpl.
  rewrite Hrec. reflexivity.
Qed.

Lemma capture_full rd s :
  let readBuf := take (Z.to_nat I2S_READ_BUF_SIZE) (i2s_data rd) in
  let bytesRead := Z.of_nat (length readBuf) in
  isRecording s = true -> i2s_ok rd = true -> 0 < bytesRead ->
  0 <= audioBufferPos s <= capacity -> capacity < audioBufferPos s + bytesRead ->
  captureAudioChunk rd s =
  Done tt (set_recording false s) [Serial BufferFull; Led LOW].
Proof.
  intros readBuf bytesRead Hrec Hok Hpos H0 Hfull.
  assert (Hle : bytesRead <= 1024).
  { unfold bytesRead, readBuf. rewrite length_take.
    change (Z.to_nat I2S_READ_BUF_SIZE) with 1024%nat. lia. }
  unfold captureAudioChunk. rewrite bind_get, Hrec. unfold i2s_read. cbn [negb].
  fold readBuf. fold bytesRead. rewrite Hok.
  destruct (Z.ltb_spec 0 bytesRead); [|lia]. cbn [andb].
  rewrite capacity_eq in *.
  rewrite (u32_small (audioBufferPos s + bytesRead)) by lia.
  destruct (Z.leb_spec (audioBufferPos s + bytesRead) (MAX_AUDIO_BYTES + WAV_HEADER_SIZE)) as [Hle'|_];
    [rewrite MAX_AUDIO_BYTES_eq in Hle'; unfold WAV_HEADER_SIZE in Hle'; lia|].
  reflexivity.
Qed.

Lemma read_length_bound rd :
  0 <= Z.of_nat (length (take (Z.to_nat I2S_READ_BUF_SIZE) (i2s_data rd))) <= I2S_READ_BUF_SIZE.
Proof.
  rewrite length_take. change (Z.to_nat I2S_READ_BUF_SIZE) with 1024%nat.
  unfold I2S_READ_BUF_SIZE. lia.
Qed.

Ltac easy_parts :=
  repeat split; simpl; auto; try lia; try congruence; try (constructor; fail).

(** What a sequence of captures keeps true. *)
Lemma captures_spec reads : forall s,
  WAV_HEADER_SIZE <= audioBufferPos s <= capacity ->
  exists s' t,
    captures reads s = Done tt s' t /\
    audioBufferPos s <= audioBufferPos s' <= capacity /\
    lastButtonState s' = lastButtonState s /\
    length (audioBuffer s') = length (audioBuffer s) /\
    take 44 (audioBuffer s') = take 44 (audioBuffer s) /\
    (isRecording s' = true -> isRecording s = true) /\
    Forall write_in_bounds t /\
    payload_written t = audioBufferPos s' - audioBufferPos s /\
    count is_post t = 0%nat /\ count is_play t = 0%nat.
Proof.
  induction reads as [|rd reads IH]; intros s Hpos.
  - exists s, []. simpl. unfold ret. easy_parts.
  - simpl.
    set (readBuf := take (Z.to_nat I2S_READ_BUF_SIZE) (i2s_data rd)).
    set (bytesRead := Z.of_nat (length readBuf)).
    pose proof (read_length_bound rd) as Hlen. fold readBuf bytesRead in Hlen.
    unfold WAV_HEADER_SIZE in Hpos.
    assert (Hcase :
      (exists s1 t1, captureAudioChunk rd s = Done tt s1 t1 /\
         audioBufferPos s <= audioBufferPos s1 <= capacity /\
         lastButtonState s1 = lastButtonState s /\
         length (audioBuffer s1) = length (audioBuffer s) /\
         take 44 (audioBuffer s1) = take 44 (audioBuffer s) /\
         (isRecording s1 = true -> isRecording s = true) /\
         Forall write_in_bounds t1 /\
         payload_written t1 = audioBufferPos s1 - audioBufferPos s /\
         count is_post t1 = 0%nat /\ count is_play t1 = 0%nat)).
    { destruct (isRecording s) eqn:Hrec.
      2:{ exists s, []. rewrite capture_idle by exact Hrec.
          easy_parts. }
      destruct (i2s_ok rd) eqn:Hok.
      2:{ exists s, []. rewrite capture_nothing by auto.
          easy_parts. }
      destruct (Z.eq_dec bytesRead 0) as [Hz|Hnz].
      { exists s, []. rewrite capture_nothing.
        - easy_parts.
        - right. fold readBuf. destruct readBuf; [reflexivity|].
          unfold bytesRead in Hz. simpl in Hz. lia. }
      destruct (Z.le_gt_cases (audioBufferPos s + bytesRead) capacity) as [Hfit|Hfull].
      - eexists _, _. split; [apply capture_store; fold readBuf; fold bytesRead; auto; lia|]. simpl.
        fold readBuf bytesRead.
        repeat split; auto; try lia.
        + apply length_inserts.
        + apply list_eq. intros i. rewrite !lookup_take.
          destruct (decide (i < 44)%nat) as [Hi|Hi]; [|reflexivity].
          apply list_lookup_inserts_lt. lia.
        + constructor; [|constructor]. simpl. lia.
        + destruct (Z.leb_spec WAV_HEADER_SIZE (audioBufferPos s)) as [_|Hlt];
            [lia|unfold WAV_HEADER_SIZE in Hlt; lia].
      - eexists _, _. split; [apply capture_full; fold readBuf; fold bytesRead; auto; lia|]. simpl.
        repeat split; auto; try lia; try discriminate.
        repeat constructor. }
    destruct Hcase as (s1 & t1 & Hc & Hp1 & Hl1 & Hlen1 & Htk1 & Hr1 & Hw1 & Hpw1 & Hpo1 & Hpl1).
    destruct (IH s1) as (s2 & t2 & Hc2 & Hp2 & Hl2 & Hlen2 & Htk2 & Hr2 & Hw2 & Hpw2 & Hpo2 & Hpl2);
      [unfold WAV_HEADER_SIZE; lia|].
    exists s2, (t1 ++ t2). unfold bind. rewrite Hc, Hc2.
    repeat split; try lia; try congruence; auto.
    + apply Forall_app; auto.
    + rewrite payload_written_app. lia.
    + rewrite count_app, Hpo1, Hpo2. reflexivity.
    + rewrite count_app, Hpl1, Hpl2. reflexivity.
Qed.


(** ** [stopRecording] and [loop], case by case *)

Lemma stopRecording_eq s : stopRecording s = Done tt (stopped s) (stop_trace s).
Proof. reflexivity. Qed.

Lemma startRecording_eq s :
  startRecording s =
  Done tt (mkState (audioBuffer s) WAV_HEADER_SIZE true (lastButtonState s))
          [Led HIGH; Serial RecStarted].
Proof. reflexivity. Qed.

Lemma bind_done {A B} (c : Cmd A) (k : A -> Cmd B) s a s1 t1 :
  c s = Done a s1 t1 -> (x <- c ;; k x) s = with_prefix t1 (k a s1).
Proof. intros H. unfold bind. rewrite H. destruct (k a s1); reflexivity. Qed.

Lemma bind_ext {A B} (c : Cmd A) (k1 k2 : A -> Cmd B) s :
  (forall a s1, k1 a s1 = k2 a s1) -> (x <- c ;; k1 x) s = (x <- c ;; k2 x) s.
Proof. intros H. unfold bind. destruct (c s); [rewrite H|]; reflexivity. Qed.

Lemma with_prefix_nil {A} (o : Outcome A) : with_prefix [] o = o.
Proof. destruct o; reflexivity. Qed.

(** Button released while a recording is in progress. *)
Lemma loop_release inp s :
  lastButtonState s = LOW -> button inp = HIGH -> isRecording s = true ->
  loop inp s =
  with_prefix (stop_trace s)
    (((if long_enough (u32 (audioBufferPos s - WAV_HEADER_SIZE))
       then sendAudioToServer (wifi_connected inp) (reply inp) (speaker inp)
       else emit (Serial TooShort)) ;;
      modify (set_button HIGH) ;; emit (Delay 10)) (stopped s)).
Proof.
  intros Hlast Hbut Hrec. unfold loop.
  rewrite bind_get, Hlast, Hbut. cbn [level_eqb andb].
  rewrite bind_ret, bind_get, bind_ret, bind_get, Hlast, Hrec. cbn [level_eqb andb].
  rewrite bind_assoc, (bind_done _ _ _ _ _ _ (stopRecording_eq s)).
  rewrite bind_assoc, bind_get. reflexivity.
Qed.

(** Button up and nothing to stop: the iteration only records the button
    level. *)
Lemma loop_button_up inp s :
  button inp = HIGH -> lastButtonState s = HIGH \/ isRecording s = false ->
  loop inp s = Done tt (set_button HIGH s) [Delay 10].
Proof.
  intros Hbut H. unfold loop.
  rewrite bind_get, Hbut.
  replace (level_eqb (lastButtonState s) HIGH && level_eqb HIGH LOW) with false
    by (destruct (lastButtonState s); reflexivity).
  rewrite bind_ret, bind_get. cbn [level_eqb andb]. rewrite bind_ret, bind_get.
  replace (level_eqb (lastButtonState s) LOW && true && isRecording s) with false
    by (destruct H as [-> | ->]; [reflexivity|destruct (lastButtonState s); reflexivity]).
  rewrite bind_ret. reflexivity.
Qed.

(** Button just pressed: a recording starts, and the first chunk is captured
    in the same iteration. *)
Lemma loop_press inp s :
  lastButtonState s = HIGH -> button inp = LOW ->
  loop inp s =
  with_prefix [Led HIGH; Serial RecStarted]
    ((captureAudioChunk (mic inp) ;; modify (set_button LOW) ;; emit (Delay 10))
       (mkState (audioBuffer s) WAV_HEADER_SIZE true HIGH)).
Proof.
  intros Hlast Hbut. unfold loop.
  rewrite bind_get, Hlast, Hbut. cbn [level_eqb andb].
  rewrite (bind_done _ _ _ _ _ _ (startRecording_eq s)), Hlast. f_equal.
  rewrite bind_get. cbn [isRecording andb].
  apply bind_ext. intros _ s1.
  rewrite bind_get.
  cbn [level_eqb]. rewrite andb_false_r. cbn [andb].
  rewrite bind_ret. reflexivity.
Qed.

(** Button held. *)
Lemma loop_hold inp s :
  lastButtonState s = LOW -> button inp = LOW ->
  loop inp s =
  ((if isRecording s then captureAudioChunk (mic inp) else ret tt) ;;
   modify (set_button LOW) ;; emit (Delay 10)) s.
Proof.
  intros Hlast Hbut. unfold loop.
  rewrite bind_get, Hlast, Hbut. cbn [level_eqb andb].
  rewrite bind_ret, bind_get.
  apply bind_ext. intros _ s1.
  rewrite bind_get.
  cbn [level_eqb]. rewrite andb_false_r. cbn [andb].
  rewrite bind_ret. reflexivity.
Qed.

Lemma run_app l1 l2 s : run (l1 ++ l2) s = (run l1 ;; run l2) s.
Proof.
  revert s. induction l1 as [|i l1 IH]; intros s; simpl.
  - rewrite bind_ret. reflexivity.
  - rewrite bind_assoc. apply bind_ext. intros _ s1. apply IH.
Qed.

Lemma full_chunk_read :
  take (Z.to_nat I2S_READ_BUF_SIZE) (i2s_data full_chunk) = i2s_data full_chunk /\
  Z.of_nat (length (i2s_data full_chunk)) = 1024.
Proof.
  unfold full_chunk. cbn [i2s_data]. split.
  - apply take_ge. rewrite length_replicate. lia.
  - rewrite length_replicate. reflexivity.
Qed.

(** The button stays down and every read fills: while the chunks fit. *)
Lemma run_held_fits c r k : forall s,
  lastButtonState s = LOW -> isRecording s = true ->
  WAV_HEADER_SIZE <= audioBufferPos s ->
  audioBufferPos s + 1024 * Z.of_nat k <= capacity ->
  exists buf' t,
    run (replicate k (held full_chunk c r)) s =
    Done tt (mkState buf' (audioBufferPos s + 1024 * Z.of_nat k) true LOW) t /\
    take 44 buf' = take 44 (audioBuffer s) /\
    count is_post t = 0%nat /\ count is_bufwrite t = k /\
    payload_written t = 1024 * Z.of_nat k /\
    count is_header_store t = 0%nat /\
    Forall write_in_bounds t.
Proof.
  destruct full_chunk_read as [Htake Hlen].
  induction k as [|k IH]; intros s Hlast Hrec Hlo Hhi.
  - exists (audioBuffer s), []. simpl. unfold ret.
    destruct s; simpl in *; subst. rewrite Z.add_0_r. auto 10.
  - cbn [replicate run]. unfold WAV_HEADER_SIZE in Hlo.
    assert (Hstep : loop (held full_chunk c r) s =
              Done tt (mkState (list_inserts (Z.to_nat (audioBufferPos s))
                                  (i2s_data full_chunk) (audioBuffer s))
                               (audioBufferPos s + 1024) true LOW)
                      [BufWrite (audioBufferPos s) 1024; Delay 10]).
    { rewrite loop_hold by auto. rewrite Hrec. cbn [held mic].
      unfold bind. rewrite capture_store; rewrite ?Htake, ?Hlen; auto; lia. }
    unfold bind. rewrite Hstep.
    match goal with |- context [run _ ?s1] =>
      destruct (IH s1) as (buf' & t & Hrun & Htk & Hpo & Hbw & Hpw & Hhs & Hwb);
        [reflexivity|reflexivity|
         cbn [audioBufferPos]; unfold WAV_HEADER_SIZE; lia|
         cbn [audioBufferPos]; lia|] end.
    rewrite Hrun. cbn [audioBufferPos audioBuffer] in *.
    eexists _, _. split; [f_equal; f_equal; lia|].
    cbn [app count is_post is_bufwrite is_header_store payload_written].
    rewrite Hpo, Hbw, Htk, Hpw, Hhs.
    destruct (Z.leb_spec WAV_HEADER_SIZE (audioBufferPos s)) as [_|Hc];
      [|unfold WAV_HEADER_SIZE in Hc; lia].
    destruct (Z.ltb_spec (audioBufferPos s) WAV_HEADER_SIZE) as [Hc|_];
      [unfold WAV_HEADER_SIZE in Hc; lia|].
    split; [|split; [reflexivity|split; [reflexivity|split; [lia|split; [reflexivity|]]]]].
    + apply list_eq. intros i. rewrite !lookup_take.
      destruct (decide (i < 44)%nat) as [Hi|Hi]; [|reflexivity].
      apply list_lookup_inserts_lt. lia.
    + constructor; [cbn [write_in_bounds]; lia|].
      constructor; [exact I|exact Hwb].
Qed.


Lemma count_post_prefix s : count is_post (post_prefix s) = 1%nat /\
  count is_play (post_prefix s) = 0%nat /\ count is_bufwrite (post_prefix s) = 0%nat.
Proof. repeat split; reflexivity. Qed.

(** What every call of [sendAudioToServer] on an established link does and
    leaves alone. *)
Lemma send_spec r dac s :
  let o := sendAudioToServer true r dac s in
  count is_post (out_trace o) = 1%nat /\
  (count is_play (out_trace o) <= 1)%nat /\
  audioBufferPos (out_state o) = audioBufferPos s /\
  isRecording (out_state o) = isRecording s /\
  lastButtonState (out_state o) = lastButtonState s /\
  length (audioBuffer (out_state o)) = length (audioBuffer s) /\
  Forall write_in_bounds (out_trace o).
Proof.
  intros o. subst o.
  destruct (Z.eq_dec (httpCode r) 200) as [H200|Herr].
  2:{ rewrite send_error by exact Herr. simpl. repeat split; auto.
      repeat constructor. }
  destruct (is_audio_reply r) eqn:Ha.
  2:{ rewrite send_text by assumption. simpl. repeat split; auto.
      repeat constructor. }
  destruct (Z.le_gt_cases (getSize r) (MAX_AUDIO_BYTES + WAV_HEADER_SIZE)) as [Hfit|Hbig].
  2:{ rewrite send_too_large by (assumption || lia). simpl. repeat split; auto.
      repeat constructor. }
  rewrite send_audio by assumption.
  pose proof (is_audio_reply_size r Ha) as Hsz. unfold WAV_HEADER_SIZE in Hsz.
  assert (HL : 0 <= getSize r < 2 ^ 32).
  { rewrite MAX_AUDIO_BYTES_eq in Hfit. unfold WAV_HEADER_SIZE in Hfit. lia. }
  destruct (receive_and_play_counts (getSize r) (polls r) dac s HL)
    as (Hplay & Hpost & Hp & Hr & Hl & Hlen & Hev).
  rewrite with_prefix_state, with_prefix_trace.
  rewrite !count_app, Hpost, Hplay. simpl.
  repeat split; auto.
  - destruct (returned _); lia.
  - repeat constructor.
    eapply Forall_impl; [exact Hev|].
    intros [] He; simpl in *; auto.
    specialize (He eq_refl). rewrite capacity_eq.
    rewrite MAX_AUDIO_BYTES_eq in Hfit. unfold WAV_HEADER_SIZE in Hfit. lia.
Qed.

(** C5.  A 200 reply that is handled as audio but declares more bytes than
    the buffer holds is abandoned: the call returns with the globals exactly
    as they were, nothing is stored into the buffer, the error line is
    printed and playback is not started. *)
Theorem oversize_audio_reply_aborted (r : Response) (dac : Speaker) (s : State) :
  httpCode r = 200 -> is_audio_reply r = true ->
  MAX_AUDIO_BYTES + WAV_HEADER_SIZE < getSize r ->
  let o := sendAudioToServer true r dac s in
  o = Done tt s (post_prefix s ++
                 [Serial (ResponseReceived 200); Serial (AudioResponse (getSize r));
                  Serial TooLarge; HttpEnd; Led LOW]) /\
  count is_bufwrite (out_trace o) = 0%nat /\
  count is_play (out_trace o) = 0%nat /\
  count is_error_report (out_trace o) = 1%nat.
Proof.
  intros H200 Ha Hbig o. subst o.
  rewrite send_too_large by assumption.
  repeat split; reflexivity.
Qed.

Lemma oversize_audio_reply_aborted_witness :
  let r := mkResponse 200 "audio/wav" 480045 [] "" in
  let s := mkState (replicate 64 0) 52 false HIGH in
  let dac := [1024%nat] in
  count is_play (out_trace (sendAudioToServer true r dac s)) = 0%nat /\
  out_state (sendAudioToServer true r dac s) = s.
Proof.
  intros r s dac.
  destruct (oversize_audio_reply_aborted r dac s) as (Heq & _ & Hplay & _);
    [reflexivity|reflexivity|vm_compute; reflexivity|].
  split; [exact Hplay|]. rewrite Heq. reflexivity.
Defined.

(** C10.  Only status 200 leads to playback or to a store into the buffer.
    With any other status (201, 204, a negative transport code, ...) the
    call returns with the globals unchanged, having posted once, printed the
    error line, stored nothing and played nothing. *)
Theorem only_status_200_is_success (connected : bool) (r : Response)
    (dac : Speaker) (s : State) :
  let o := sendAudioToServer connected r dac s in
  (httpCode r <> 200 ->
     returned o = true /\ out_state o = s /\
     count is_play (out_trace o) = 0%nat /\
     count is_bufwrite (out_trace o) = 0%nat /\
     (connected = true ->
        count is_post (out_trace o) = 1%nat /\
        In (Serial (HttpError (httpCode r))) (out_trace o))) /\
  (count is_play (out_trace o) <> 0%nat \/
   count is_bufwrite (out_trace o) <> 0%nat \/
   audioBuffer (out_state o) <> audioBuffer s ->
     connected = true /\ httpCode r = 200).
Proof.
  intros o.
  assert (Herr : httpCode r <> 200 ->
     returned o = true /\ out_state o = s /\
     count is_play (out_trace o) = 0%nat /\
     count is_bufwrite (out_trace o) = 0%nat /\
     (connected = true ->
        count is_post (out_trace o) = 1%nat /\
        In (Serial (HttpError (httpCode r))) (out_trace o))).
  { intros H. subst o. destruct connected.
    - rewrite send_error by exact H. simpl. repeat split; auto.
    - rewrite send_offline. simpl. repeat split; auto; discriminate. }
  split; [exact Herr|].
  intros Hobs.
  destruct connected.
  - split; [reflexivity|].
    destruct (Z.eq_dec (httpCode r) 200) as [|Hne]; [assumption|].
    destruct (Herr Hne) as (_ & Hs & Hp & Hw & _).
    rewrite Hs in Hobs. intuition congruence.
  - exfalso. subst o. rewrite send_offline in Hobs. simpl in Hobs.
    intuition congruence.
Qed.

Lemma only_status_200_is_success_witness :
  let r := mkResponse 204 "audio/wav" 100 [mkPoll 100 (replicate 100 1)] "" in
  let s := mkState (replicate 200 0) 52 false HIGH in
  let dac := [1024%nat] in
  count is_play (out_trace (sendAudioToServer true r dac s)) = 0%nat /\
  count is_post (out_trace (sendAudioToServer true r dac s)) = 1%nat /\
  out_state (sendAudioToServer true r dac s) = s.
Proof.
  intros r s dac.
  destruct (only_status_200_is_success true r dac s) as [Herr _].
  destruct Herr as (_ & Hs & Hp & _ & Hc); [vm_compute; discriminate|].
  destruct (Hc eq_refl) as [Hpost _].
  repeat split; assumption.
Defined.




(** C6 (as the code has it).  For a 200 reply the audio branch is taken
    exactly when the content type starts with "audio/wav" and the declared
    length exceeds 44.  For an audio reply that fits the buffer, everything
    after the POST and the two log lines is first the read loop, which only
    waits and stores the body at consecutive offsets from 0.  While fewer
    bytes than declared have been stored the call is still waiting and
    playback has not been started.  Once exactly the declared number of
    bytes is stored, playback of that many bytes is started, straight after
    the last store, and nothing after it starts playback again or stores
    into the buffer: playback is started exactly once.  That is the case
    whenever the stream hands over what it announces and announces at least
    the declared length.  An audio reply larger than the buffer starts no
    playback.  Any other reply is printed as text: no playback, no store
    into the buffer, the globals unchanged. *)
Theorem reply_classification_and_playback
    (r : Response) (dac : Speaker) (s : State) :
  httpCode r = 200 ->
  let o := sendAudioToServer true r dac s in
  let L := getSize r in
  let logged := [Serial (ResponseReceived 200); Serial (AudioResponse L)] in
  (In (Serial (AudioResponse L)) (out_trace o) <->
     String.prefix "audio/wav" (contentType r) = true /\
     WAV_HEADER_SIZE < L) /\
  (is_audio_reply r = true ->
   L <= MAX_AUDIO_BYTES + WAV_HEADER_SIZE ->
     (exists t_read,
        Forall (read_event 0 L) t_read /\
        ((exists n, received 0 t_read = Some n /\ 0 <= n < L /\
            o = Blocked (out_state o) (post_prefix s ++ logged ++ t_read) /\
            count is_play (out_trace o) = 0%nat) \/
         (received 0 t_read = Some L /\
          exists rest,
            out_trace o =
              post_prefix s ++ logged ++ t_read ++ Serial (PlayStart L) :: rest /\
            count is_play rest = 0%nat /\
            count is_bufwrite rest = 0%nat /\
            count is_play (out_trace o) = 1%nat))) /\
     (Forall well_behaved (polls r) ->
      L <= total_available (polls r) ->
        count is_play (out_trace o) = 1%nat)) /\
  (is_audio_reply r = true ->
   MAX_AUDIO_BYTES + WAV_HEADER_SIZE < L ->
     returned o = true /\ count is_play (out_trace o) = 0%nat /\ out_state o = s) /\
  (is_audio_reply r = false ->
     o = Done tt s (post_prefix s ++
                    [Serial (ResponseReceived 200);
                     Serial (ServerText (getString r)); HttpEnd; Led LOW]) /\
     count is_play (out_trace o) = 0%nat /\
     count is_bufwrite (out_trace o) = 0%nat).
Proof.
  intros H200 o L logged.
  assert (Hcls : is_audio_reply r = true <->
            String.prefix "audio/wav" (contentType r) = true /\
            WAV_HEADER_SIZE < L).
  { unfold is_audio_reply, L. rewrite andb_true_iff, Z.ltb_lt. reflexivity. }
  assert (Htext : is_audio_reply r = false ->
     o = Done tt s (post_prefix s ++
                    [Serial (ResponseReceived 200);
                     Serial (ServerText (getString r)); HttpEnd; Led LOW])).
  { intros Ha. subst o. apply send_text; assumption. }
  assert (Hbig : is_audio_reply r = true ->
     MAX_AUDIO_BYTES + WAV_HEADER_SIZE < L ->
     o = Done tt s (post_prefix s ++
             [Serial (ResponseReceived 200); Serial (AudioResponse L);
              Serial TooLarge; HttpEnd; Led LOW])).
  { intros Ha Hb. subst o. apply send_too_large; assumption. }
  assert (Hfit : is_audio_reply r = true ->
     L <= MAX_AUDIO_BYTES + WAV_HEADER_SIZE ->
     o = with_prefix (post_prefix s ++ logged)
          ((bytesRead <- read_loop L (polls r) 0 ;;
            playAudio dac bytesRead ;; emit HttpEnd ;; emit (Led LOW)) s)).
  { intros Ha Hf. subst o. apply send_audio; assumption. }
  assert (HL : is_audio_reply r = true ->
     L <= MAX_AUDIO_BYTES + WAV_HEADER_SIZE -> 0 <= L < 2 ^ 32).
  { intros Ha Hf. pose proof (is_audio_reply_size r Ha) as Hsz. fold L in Hsz.
    rewrite MAX_AUDIO_BYTES_eq in Hf. unfold WAV_HEADER_SIZE in *. lia. }
  assert (Hpre : count is_play (post_prefix s ++ logged) = 0%nat) by reflexivity.
  split; [|split; [|split]].
  - rewrite <- Hcls. destruct (is_audio_reply r) eqn:Ha.
    + split; [reflexivity|intros _].
      destruct (Z.le_gt_cases L (MAX_AUDIO_BYTES + WAV_HEADER_SIZE)) as [Hf|Hb].
      * rewrite (Hfit eq_refl Hf), with_prefix_trace.
        apply in_or_app. left. simpl. auto 10.
      * rewrite (Hbig eq_refl Hb). simpl. auto 10.
    + split; [|discriminate]. rewrite (Htext eq_refl). simpl.
      intros [H|[H|[H|[H|[H|[H|[H|[]]]]]]]]; discriminate H.
  - intros Ha Hf.
    destruct (receive_and_play L (polls r) dac s (HL Ha Hf))
      as (s1 & t1 & Hs1 & _ & _ & _ & _ & Hev & Hcase).
    assert (Hnoplay : count is_play t1 = 0%nat).
    { apply (read_events_count _ 0 L); [intros []; simpl; tauto|exact Hev]. }
    assert (Hshape :
      (exists n, received 0 t1 = Some n /\ 0 <= n < L /\
         o = Blocked (out_state o) (post_prefix s ++ logged ++ t1) /\
         count is_play (out_trace o) = 0%nat) \/
      (received 0 t1 = Some L /\
       exists rest,
         out_trace o =
           post_prefix s ++ logged ++ t1 ++ Serial (PlayStart L) :: rest /\
         count is_play rest = 0%nat /\
         count is_bufwrite rest = 0%nat /\
         count is_play (out_trace o) = 1%nat)).
    { destruct Hcase as [(_ & (n & Hrec & Hn) & Ho) | (_ & Hrec & tp & Hall & Ho)].
      - left. exists n. split; [exact Hrec|]. split; [exact Hn|].
        rewrite (Hfit Ha Hf), Ho. cbn [with_prefix out_state out_trace].
        rewrite <- app_assoc, !count_app, Hnoplay. auto.
      - right. split; [exact Hrec|].
        assert (Hp0 : count is_play tp = 0%nat).
        { apply (count_dac_calls _ WAV_HEADER_SIZE L);
            [intros []; simpl; congruence|exact Hall]. }
        assert (Hb0 : count is_bufwrite tp = 0%nat).
        { apply (count_dac_calls _ WAV_HEADER_SIZE L);
            [intros []; simpl; congruence|exact Hall]. }
        rewrite (Hfit Ha Hf).
        destruct Ho as [-> | ->]; cbn [with_prefix out_trace].
        + exists (tp ++ [I2SZeroDma; Serial PlayDone; HttpEnd; Led LOW]).
          rewrite <- app_assoc, !count_app, !count_cons, !count_app, Hnoplay, Hp0, Hb0.
          repeat split; reflexivity.
        + exists tp.
          rewrite <- app_assoc, !count_app, !count_cons, Hnoplay, Hp0, Hb0.
          repeat split; reflexivity. }
    split; [exists t1; split; [exact Hev|exact Hshape]|].
    intros Hwb Htot.
    destruct (read_loop_completes L (HL Ha Hf) (polls r) 0 s)
      as (s' & t & Hrl); [pose proof (HL Ha Hf); lia|exact Hwb|lia|].
    destruct Hshape as [(n & _ & _ & _ & Hc) | (_ & rest & _ & _ & _ & Hc)];
      [|exact Hc].
    exfalso.
    destruct Hcase as [(Hrl' & _) | (Hrl' & Hrec & tp & Hall & Ho)];
      [congruence|].
    rewrite (Hfit Ha Hf) in Hc.
    destruct Ho as [Ho | Ho]; rewrite Ho in Hc; cbn [with_prefix out_trace] in Hc;
      rewrite !count_app, !count_cons in Hc; simpl in Hc; lia.
  - intros Ha Hb. rewrite (Hbig Ha Hb). repeat split; reflexivity.
  - intros Ha. rewrite (Htext Ha). repeat split; reflexivity.
Qed.

Lemma reply_classification_and_playback_witness :
  let r := mkResponse 200 "audio/wav" 50
             [mkPoll 0 []; mkPoll 30 (replicate 30 7); mkPoll 40 (replicate 40 9)] "" in
  let s := mkState (replicate 64 0) 52 false HIGH in
  let dac := [0%nat; 4%nat] in
  returned (sendAudioToServer true r dac s) = false /\
  count is_play (out_trace (sendAudioToServer true r dac s)) = 1%nat.
Proof.
  intros r s dac. split; [reflexivity|].
  destruct (reply_classification_and_playback r dac s eq_refl) as (_ & Hfit & _).
  destruct Hfit as [_ Hdone]; [reflexivity|vm_compute; discriminate|].
  apply Hdone.
  - repeat constructor; vm_compute; intuition discriminate.
  - vm_compute. discriminate.
Defined.

(** C6, as stated, fails: a reply classified as audio (content type
    audio/wav, declared length above 44) whose declared length is one byte
    more than the buffer holds starts no playback. *)
Lemma audio_reply_without_playback :
  let r := mkResponse 200 "audio/wav" (MAX_AUDIO_BYTES + WAV_HEADER_SIZE + 1) [] "" in
  let s := mkState (replicate (Z.to_nat capacity) 0) (WAV_HEADER_SIZE + 32000) false HIGH in
  let dac := [1024%nat] in
  httpCode r = 200 /\ is_audio_reply r = true /\
  returned (sendAudioToServer true r dac s) = true /\
  count is_play (out_trace (sendAudioToServer true r dac s)) = 0%nat.
Proof.
  intros r s dac.
  assert (Ha : is_audio_reply r = true) by reflexivity.
  rewrite (send_too_large r dac s eq_refl Ha) by (vm_compute; reflexivity).
  repeat split; reflexivity.
Qed.


Lemma u32_payload s :
  WAV_HEADER_SIZE <= audioBufferPos s <= capacity ->
  u32 (audioBufferPos s - WAV_HEADER_SIZE) = audioBufferPos s - WAV_HEADER_SIZE /\
  0 <= audioBufferPos s - WAV_HEADER_SIZE <= MAX_AUDIO_BYTES.
Proof.
  intros H. rewrite capacity_eq in H. rewrite MAX_AUDIO_BYTES_eq.
  unfold WAV_HEADER_SIZE in *. split; [apply u32_small|]; lia.
Qed.

(** C4.  On a release that ends a recording the header is finalised, and
    then: with less than 0.3 s of audio (fewer than
    0.3 * SAMPLE_RATE * BYTES_PER_SAMPLE bytes) nothing is sent and the
    controller is idle again; from 0.3 s on, [sendAudioToServer] is run (and
    posts once when the link is up). *)
Theorem release_duration_gate (inp : LoopInput) (s : State) :
  lastButtonState s = LOW -> button inp = HIGH -> isRecording s = true ->
  WAV_HEADER_SIZE <= audioBufferPos s <= capacity ->
  let n := audioBufferPos s - WAV_HEADER_SIZE in
  (10 * n < 3 * (SAMPLE_RATE * BYTES_PER_SAMPLE) ->
     loop inp s = Done tt (set_button HIGH (stopped s))
                          (stop_trace s ++ [Serial TooShort; Delay 10]) /\
     count is_post (out_trace (loop inp s)) = 0%nat /\
     Idle (out_state (loop inp s))) /\
  (3 * (SAMPLE_RATE * BYTES_PER_SAMPLE) <= 10 * n ->
     loop inp s =
     with_prefix (stop_trace s)
       ((sendAudioToServer (wifi_connected inp) (reply inp) (speaker inp) ;;
         modify (set_button HIGH) ;; emit (Delay 10)) (stopped s)) /\
     (wifi_connected inp = true ->
        count is_post (out_trace (loop inp s)) = 1%nat)).
Proof.
  intros Hlast Hbut Hrec Hpos n. subst n.
  set (n := audioBufferPos s - WAV_HEADER_SIZE).
  destruct (u32_payload s Hpos) as [Hu Hn].
  pose proof (loop_release inp s Hlast Hbut Hrec) as Hloop.
  rewrite Hu, (long_enough_threshold _ Hn) in Hloop. fold n in Hloop.
  split; intros Hdur.
  - destruct (Z.leb_spec (3 * (SAMPLE_RATE * BYTES_PER_SAMPLE)) (10 * n)); [lia|].
    assert (Heq : loop inp s = Done tt (set_button HIGH (stopped s))
                          (stop_trace s ++ [Serial TooShort; Delay 10]))
      by (rewrite Hloop; reflexivity).
    rewrite Heq. repeat split; reflexivity.
  - destruct (Z.leb_spec (3 * (SAMPLE_RATE * BYTES_PER_SAMPLE)) (10 * n)); [|lia].
    split; [exact Hloop|]. intros Hc. rewrite Hloop, Hc.
    destruct (send_spec (reply inp) (speaker inp) (stopped s)) as (Hpost & _).
    rewrite with_prefix_trace, count_app. unfold bind.
    destruct (sendAudioToServer true (reply inp) (speaker inp) (stopped s))
      as [[] s1 t1|s1 t1];
      simpl in *; rewrite ?count_app; simpl; rewrite Hpost; reflexivity.
Qed.

Lemma release_duration_gate_witness :
  let r := mkResponse 200 "text/plain" 2 [] "ok" in
  let short := mkState (replicate 64 0) (44 + 8) true LOW in
  let long := mkState (replicate 64 0) (44 + 9600) true LOW in
  count is_post (out_trace (loop (released true r []) short)) = 0%nat /\
  count is_post (out_trace (loop (released true r []) long)) = 1%nat.
Proof.
  intros r short long. split.
  - destruct (release_duration_gate (released true r []) short) as [Hs _];
      [reflexivity|reflexivity|reflexivity|vm_compute; split; discriminate|].
    destruct Hs as (_ & H & _); [vm_compute; reflexivity|exact H].
  - destruct (release_duration_gate (released true r []) long) as [_ Hl];
      [reflexivity|reflexivity|reflexivity|vm_compute; split; discriminate|].
    destruct Hl as [_ H]; [vm_compute; discriminate|]. apply H. reflexivity.
Defined.

(** C9.  A release with at least 0.3 s of audio while the link is down:
    the exchange prints its local report and returns without touching the
    globals, nothing is posted, the cursor keeps its value and the
    controller is idle. *)
Theorem release_without_link (inp : LoopInput) (s : State) :
  lastButtonState s = LOW -> button inp = HIGH -> isRecording s = true ->
  wifi_connected inp = false ->
  WAV_HEADER_SIZE <= audioBufferPos s <= capacity ->
  3 * (SAMPLE_RATE * BYTES_PER_SAMPLE) <= 10 * (audioBufferPos s - WAV_HEADER_SIZE) ->
  sendAudioToServer false (reply inp) (speaker inp) (stopped s) =
    Done tt (stopped s) [Serial WifiSkip] /\
  loop inp s = Done tt (set_button HIGH (stopped s))
                       (stop_trace s ++ [Serial WifiSkip; Delay 10]) /\
  count is_post (out_trace (loop inp s)) = 0%nat /\
  audioBufferPos (out_state (loop inp s)) = audioBufferPos s /\
  Idle (out_state (loop inp s)).
Proof.
  intros Hlast Hbut Hrec Hoff Hpos Hdur.
  destruct (u32_payload s Hpos) as [Hu Hn].
  pose proof (loop_release inp s Hlast Hbut Hrec) as Hloop.
  rewrite Hu, (long_enough_threshold _ Hn), Hoff in Hloop.
  destruct (Z.leb_spec (3 * (SAMPLE_RATE * BYTES_PER_SAMPLE))
              (10 * (audioBufferPos s - WAV_HEADER_SIZE))); [|lia].
  assert (Heq : loop inp s = Done tt (set_button HIGH (stopped s))
                       (stop_trace s ++ [Serial WifiSkip; Delay 10]))
    by (rewrite Hloop; reflexivity).
  split; [apply send_offline|]. split; [exact Heq|].
  rewrite Heq. repeat split; reflexivity.
Qed.

Lemma release_without_link_witness :
  let r := mkResponse 200 "audio/wav" 50 [mkPoll 50 (replicate 50 1)] "" in
  let s := mkState (replicate 64 0) (44 + 16000) true LOW in
  count is_post (out_trace (loop (released false r [1024%nat]) s)) = 0%nat /\
  Idle (out_state (loop (released false r [1024%nat]) s)).
Proof.
  intros r s.
  destruct (release_without_link (released false r [1024%nat]) s) as (_ & _ & Hp & _ & Hi);
    [reflexivity|reflexivity|reflexivity|reflexivity|
     vm_compute; split; discriminate|vm_compute; discriminate|].
  split; assumption.
Defined.

Lemma run_cons i l s : run (i :: l) s = (loop i ;; run l) s.
Proof. reflexivity. Qed.

Lemma run_cons_done i l s s1 t1 :
  loop i s = Done tt s1 t1 -> run (i :: l) s = with_prefix t1 (run l s1).
Proof.
  intros H. rewrite run_cons.
  exact (bind_done (loop i) (fun _ => run l) s tt s1 t1 H).
Qed.

Lemma run_app_done l1 l2 s s1 t1 :
  run l1 s = Done tt s1 t1 -> run (l1 ++ l2) s = with_prefix t1 (run l2 s1).
Proof.
  intros H. rewrite run_app.
  exact (bind_done (run l1) (fun _ => run l2) s tt s1 t1 H).
Qed.

(** The buffer fills up: the button is held while 469 full reads arrive,
    then released. *)
Lemma buffer_full_run (buf : list Z) (r : Response) (dac : Speaker) :
  exists s' t,
    run (replicate 469 (held full_chunk true r) ++ [released true r dac]) (initial buf)
      = Done tt s' t /\
    In (Serial BufferFull) t /\
    count is_post t = 0%nat /\
    take 44 (audioBuffer s') = take 44 buf /\
    audioBufferPos s' = WAV_HEADER_SIZE + 468 * I2S_READ_BUF_SIZE /\
    isRecording s' = false /\
    payload_written t = 468 * I2S_READ_BUF_SIZE /\
    count is_header_store t = 0%nat /\
    Forall write_in_bounds t.
Proof.
  destruct full_chunk_read as [Htake Hlen].
  assert (Hsplit : replicate 469 (held full_chunk true r) ++ [released true r dac] =
            held full_chunk true r ::
            (replicate 467 (held full_chunk true r) ++
             [held full_chunk true r; released true r dac])) by reflexivity.
  rewrite Hsplit. clear Hsplit.
  (* the press, with the first chunk *)
  set (s1 := mkState (list_inserts (Z.to_nat WAV_HEADER_SIZE) (i2s_data full_chunk) buf)
                     (WAV_HEADER_SIZE + 1024) true LOW).
  assert (H1 : loop (held full_chunk true r) (initial buf) =
               Done tt s1 [Led HIGH; Serial RecStarted; BufWrite WAV_HEADER_SIZE 1024; Delay 10]).
  { rewrite loop_press by reflexivity. cbn [held mic initial audioBuffer].
    unfold bind. rewrite capture_store; rewrite ?Htake, ?Hlen; try reflexivity;
      cbn [audioBufferPos]; rewrite ?capacity_eq; unfold WAV_HEADER_SIZE; lia. }
  (* 467 more chunks that fit *)
  destruct (run_held_fits true r 467 s1) as (buf2 & t2 & H2 & Htk2 & Hpo2 & _ & Hpw2 & Hhs2 & Hwb2);
    [reflexivity|reflexivity|cbn [audioBufferPos s1]; lia|
     cbn [audioBufferPos s1]; rewrite capacity_eq; unfold WAV_HEADER_SIZE; lia|].
  cbn [audioBufferPos audioBuffer s1] in H2, Htk2.
  set (s2 := mkState buf2 (WAV_HEADER_SIZE + 1024 + 1024 * Z.of_nat 467) true LOW) in *.
  (* the chunk that does not fit *)
  assert (H3 : loop (held full_chunk true r) s2 =
               Done tt (mkState buf2 (audioBufferPos s2) false LOW)
                       [Serial BufferFull; Led LOW; Delay 10]).
  { rewrite loop_hold by reflexivity. cbn [isRecording s2 held mic].
    unfold bind. rewrite capture_full; rewrite ?Htake, ?Hlen; try reflexivity;
      cbn [audioBufferPos s2]; rewrite ?capacity_eq; unfold WAV_HEADER_SIZE; lia. }
  (* the release *)
  set (s3 := mkState buf2 (audioBufferPos s2) false LOW) in *.
  assert (H4 : loop (released true r dac) s3 = Done tt (set_button HIGH s3) [Delay 10]).
  { apply loop_button_up; [reflexivity|right; reflexivity]. }
  assert (Hrest :
    run (replicate 467 (held full_chunk true r) ++
         [held full_chunk true r; released true r dac]) s1 =
    Done tt (set_button HIGH s3)
         (t2 ++ [Serial BufferFull; Led LOW; Delay 10] ++ [Delay 10])).
  { rewrite (run_app_done _ _ _ _ _ H2).
    rewrite (run_cons_done _ _ _ _ _ H3).
    rewrite (run_cons_done _ _ _ _ _ H4).
    reflexivity. }
  exists (set_button HIGH s3),
    ([Led HIGH; Serial RecStarted; BufWrite WAV_HEADER_SIZE 1024; Delay 10] ++
     t2 ++ [Serial BufferFull; Led LOW; Delay 10] ++ [Delay 10]).
  split.
  { etransitivity; [exact (run_cons_done _ _ _ _ _ H1)|].
    exact (f_equal (with_prefix _) Hrest). }
  split.
  { apply in_or_app. right. apply in_or_app. right. simpl. auto. }
  rewrite !count_app, Hpo2, Hhs2, !payload_written_app, Hpw2.
  split; [reflexivity|].
  split; [|split; [|split; [reflexivity|split; [|split; [reflexivity|]]]]].
  - cbn [set_button s3 audioBuffer]. rewrite Htk2.
    apply list_eq. intros i. rewrite !lookup_take.
    destruct (decide (i < 44)%nat) as [Hi|Hi]; [|reflexivity].
    apply list_lookup_inserts_lt. unfold WAV_HEADER_SIZE. lia.
  - cbn [set_button s3 s2 audioBufferPos]. unfold I2S_READ_BUF_SIZE, WAV_HEADER_SIZE. lia.
  - reflexivity.
  - apply Forall_app. split.
    + repeat constructor; cbn [write_in_bounds];
        rewrite ?capacity_eq; unfold WAV_HEADER_SIZE; lia.
    + apply Forall_app. split; [exact Hwb2|repeat constructor].
Qed.

Lemma le32_at_take (l : list Z) :
  le32_at (take 44 l) 40 = le32_at l 40.
Proof.
  unfold le32_at, byte_at. rewrite !lookup_take_lt by lia. reflexivity.
Qed.

(** C1 (the code departs from the claim).  The button is held while 469
    full reads arrive: the first 468 fit, the 469th would pass the end of
    the buffer and stops the recording; then the button is released.
    Nothing is posted, the header is never written over the first 44 bytes,
    and the 479232 payload bytes captured stay unsent in the buffer. *)
Theorem buffer_full_recording_is_never_sent
    (buf : list Z) (r : Response) (dac : Speaker) :
  exists s' t,
    run (replicate 469 (held full_chunk true r) ++ [released true r dac]) (initial buf)
      = Done tt s' t /\
    In (Serial BufferFull) t /\
    count is_post t = 0%nat /\
    take 44 (audioBuffer s') = take 44 buf /\
    audioBufferPos s' = WAV_HEADER_SIZE + 468 * I2S_READ_BUF_SIZE /\
    isRecording s' = false.
Proof.
  destruct (buffer_full_run buf r dac)
    as (s' & t & Hrun & Hfull & Hpost & Htk & Hpos & Hrec & _).
  exists s', t. auto 10.
Qed.

(** C3 (the code departs from the claim).  On the same run, whose reads
    add up to more than the buffer holds, the safety half of the claim
    holds: every store stays inside the allocation and the cursor stops at
    44 + 479232, below [capacity].  The other half does not: 479232 payload
    bytes have been stored, yet no store ever reaches into the 44 header
    bytes, so the length field at offsets 40..43 is the one the buffer held
    before the recording (0 in a zeroed buffer), not 479232; after the
    release the recording is over and nothing will write it. *)
Theorem buffer_full_header_not_finalized
    (buf : list Z) (r : Response) (dac : Speaker) :
  exists s' t,
    run (replicate 469 (held full_chunk true r) ++ [released true r dac]) (initial buf)
      = Done tt s' t /\
    Forall write_in_bounds t /\
    audioBufferPos s' <= capacity /\
    payload_written t = 479232 /\
    audioBufferPos s' - WAV_HEADER_SIZE = 479232 /\
    count is_header_store t = 0%nat /\
    le32_at (audioBuffer s') 40 = le32_at buf 40 /\
    isRecording s' = false.
Proof.
  destruct (buffer_full_run buf r dac)
    as (s' & t & Hrun & _ & _ & Htk & Hpos & Hrec & Hpw & Hhs & Hwb).
  exists s', t.
  split; [exact Hrun|]. split; [exact Hwb|].
  unfold I2S_READ_BUF_SIZE, WAV_HEADER_SIZE in *.
  split; [rewrite capacity_eq; lia|].
  split; [lia|]. split; [lia|]. split; [exact Hhs|].
  split; [|exact Hrec].
  rewrite <- (le32_at_take (audioBuffer s')), Htk. apply le32_at_take.
Qed.


(** ** More on the header *)

(** X1.  Whatever the payload size and whatever the buffer held, the format
    chunk written by [writeWavHeader] decodes (little-endian) to the agreed
    audio format: chunk size 16, PCM, [CHANNELS] channels, [SAMPLE_RATE] Hz,
    16 bits, with the derived byte rate sampleRate * channels *
    bytesPerSample and block alignment channels * bytesPerSample. *)
Theorem writeWavHeader_format_fields (buf : list Z) (dataSize : Z) :
  (44 <= length buf)%nat ->
  let b := writeWavHeader buf dataSize in
  le32_at b 16 = 16 /\
  le16_at b 20 = 1 /\
  le16_at b 22 = CHANNELS /\
  le32_at b 24 = SAMPLE_RATE /\
  le32_at b 28 = SAMPLE_RATE * CHANNELS * BYTES_PER_SAMPLE /\
  le16_at b 32 = CHANNELS * BYTES_PER_SAMPLE /\
  le16_at b 34 = BITS_PER_SAMPLE /\
  take 32 (drop 8 b) = take 32 (drop 8 (wavHeaderBytes 0)).
Proof.
  intros Hlen b. subst b. rewrite writeWavHeader_split by exact Hlen.
  rewrite wavHeaderBytes_eq. repeat split; reflexivity.
Qed.

Lemma writeWavHeader_format_fields_witness :
  le32_at (writeWavHeader (replicate 50 255) 123456) 24 = 16000 /\
  le32_at (writeWavHeader (replicate 50 255) 123456) 28 = 32000.
Proof.
  destruct (writeWavHeader_format_fields (replicate 50 255) 123456)
    as (_ & _ & _ & Hrate & Hbyte & _); [simpl; lia|].
  split; [exact Hrate|exact Hbyte].
Defined.

(** X2.  The two length fields hold for every [uint32_t] payload size,
    zero included, also beyond the buffer capacity: bytes 40..43 decode
    (little-endian) to [dataSize], and bytes 4..7 to [dataSize + 36] reduced
    modulo 2^32, so the RIFF size wraps for the 36 largest sizes. *)
Theorem writeWavHeader_length_fields_uint32 (buf : list Z) (dataSize : Z) :
  (44 <= length buf)%nat -> 0 <= dataSize < 2 ^ 32 ->
  le32_at (writeWavHeader buf dataSize) 40 = dataSize /\
  le32_at (writeWavHeader buf dataSize) 4 = (dataSize + 36) mod 2 ^ 32.
Proof.
  intros Hlen Hd. rewrite writeWavHeader_split by exact Hlen.
  rewrite le32_at_header_data by exact Hd.
  split; [reflexivity|].
  rewrite wavHeaderBytes_eq.
  replace ((dataSize + 36) mod 2 ^ 32) with (u32 (dataSize + WAV_HEADER_SIZE - 8))
    by (unfold u32, WAV_HEADER_SIZE; f_equal; lia).
  apply le32_of_u8. unfold u32. apply Z.mod_pos_bound. lia.
Qed.

Lemma writeWavHeader_length_fields_uint32_witness :
  le32_at (writeWavHeader (replicate 44 0) 0) 40 = 0 /\
  le32_at (writeWavHeader (replicate 44 0) (2 ^ 32 - 1)) 4 = 35.
Proof.
  split.
  - apply (writeWavHeader_length_fields_uint32 (replicate 44 0) 0); [simpl; lia|lia].
  - destruct (writeWavHeader_length_fields_uint32 (replicate 44 0) (2 ^ 32 - 1))
      as [_ H]; [simpl; lia|lia|]. rewrite H. reflexivity.
Defined.

(** X3.  Writing the header again replaces it: only the last size written
    counts, and writing the same size twice changes nothing. *)
Theorem writeWavHeader_overwrite (buf : list Z) (d1 d2 : Z) :
  (44 <= length buf)%nat ->
  writeWavHeader (writeWavHeader buf d1) d2 = writeWavHeader buf d2.
Proof.
  intros Hlen.
  rewrite (writeWavHeader_split (writeWavHeader buf d1))
    by (rewrite writeWavHeader_length; exact Hlen).
  rewrite writeWavHeader_drop. symmetry. apply writeWavHeader_split. exact Hlen.
Qed.

Lemma writeWavHeader_overwrite_witness :
  writeWavHeader (writeWavHeader (replicate 48 7) 100) 32000 =
  writeWavHeader (replicate 48 7) 32000.
Proof. apply writeWavHeader_overwrite. simpl. lia. Defined.

(** X4.  The test [durationSecs > 0.3] of [loop], evaluated in binary32 and
    binary64 arithmetic as the compiler does, accepts a recording exactly
    when it holds at least 9600 payload bytes: a recording of exactly 0.3 s
    passes, because the [float] quotient 9600/32000 rounds above the
    [double] constant 0.3. *)
Theorem duration_test_exact (audioDataSize : Z) :
  0 <= audioDataSize <= MAX_AUDIO_BYTES ->
  (long_enough audioDataSize = true <-> 9600 <= audioDataSize) /\
  durationSecs 9600 = Dy 10066330 (-25) /\
  double_0_3 = Dy 5404319552844595 (-54).
Proof.
  intros Hn. rewrite (long_enough_threshold _ Hn).
  split; [|split; [vm_compute; reflexivity|exact double_0_3_eq]].
  rewrite Z.leb_le. change (SAMPLE_RATE * BYTES_PER_SAMPLE) with 32000. lia.
Qed.

Lemma duration_test_exact_witness :
  long_enough 9600 = true <-> 9600 <= 9600.
Proof.
  apply (duration_test_exact 9600). vm_compute. split; discriminate.
Defined.


(** ** Playback *)

(** The loop offers the buffer from where the driver stopped; it returns
    when the driver has taken everything up to [totalBytes], and is still
    in the loop while something is left. *)
Lemma play_loop_fed dac : forall offset totalBytes s,
  0 <= offset -> totalBytes < 2 ^ 32 ->
  let o := play_loop dac offset totalBytes s in
  exists n, fed dac offset (out_trace o) = Some n /\
    (returned o = true -> n = Z.max offset totalBytes) /\
    (returned o = false ->
       offset <= n < totalBytes /\ length (out_trace o) = length dac).
Proof.
  induction dac as [|accepts dac IH]; intros offset totalBytes s Hoff Htot o; subst o.
  - simpl. destruct (Z.ltb_spec offset totalBytes); simpl.
    + exists offset. split; [reflexivity|]. split; [discriminate|]. intros _. split; [lia|reflexivity].
    + exists offset. split; [reflexivity|]. split; [intros _; lia|discriminate].
  - cbn [play_loop]. destruct (Z.ltb_spec offset totalBytes) as [Hlt|Hge].
    2:{ exists offset. simpl. split; [reflexivity|]. split; [intros _; lia|discriminate]. }
    rewrite (u32_small (totalBytes - offset)) by lia. cbv zeta.
    set (toWrite := Z.min 1024 (totalBytes - offset)).
    assert (Hw : 1 <= toWrite <= 1024 /\ toWrite <= totalBytes - offset)
      by (unfold toWrite; lia).
    pose proof (i2s_write_bounds accepts toWrite ltac:(lia)) as Hwr.
    rewrite (u32_small (offset + i2s_write accepts toWrite)) by lia.
    destruct (IH (offset + i2s_write accepts toWrite) totalBytes s)
      as (n & Hfed & Hret & Hblk); [lia..|].
    rewrite bind_emit, with_prefix_trace, with_prefix_returned.
    exists n. cbn [app fed]. rewrite Z.eqb_refl.
    split; [exact Hfed|]. split.
    + intros H. rewrite (Hret H). lia.
    + intros H. destruct (Hblk H) as [Hn Hlen]. cbn [length]. split; [lia|].
      rewrite Hlen. reflexivity.
Qed.

(** A driver that takes at least one byte of every offer lets the loop
    return within [totalBytes - offset] calls. *)
Lemma play_loop_progress dac : forall offset totalBytes s,
  0 <= offset -> totalBytes < 2 ^ 32 ->
  takes_at_least 1 dac -> totalBytes - offset <= Z.of_nat (length dac) ->
  returned (play_loop dac offset totalBytes s) = true.
Proof.
  induction dac as [|accepts dac IH]; intros offset totalBytes s Hoff Htot Hdac Hlen.
  - simpl in *. destruct (Z.ltb_spec offset totalBytes); [lia|reflexivity].
  - cbn [play_loop]. destruct (Z.ltb_spec offset totalBytes) as [Hlt|Hge];
      [|reflexivity].
    rewrite (u32_small (totalBytes - offset)) by lia. cbv zeta.
    set (toWrite := Z.min 1024 (totalBytes - offset)).
    assert (Hw : 1 <= toWrite <= 1024 /\ toWrite <= totalBytes - offset)
      by (unfold toWrite; lia).
    inversion Hdac as [|? ? Ha Hdac']; subst.
    assert (Hwr : 1 <= i2s_write accepts toWrite <= toWrite)
      by (unfold i2s_write; lia).
    rewrite (u32_small (offset + i2s_write accepts toWrite)) by lia.
    rewrite bind_emit, with_prefix_returned.
    apply IH; [lia|lia|exact Hdac'|]. cbn [length] in Hlen. lia.
Qed.

(** A driver that takes nothing keeps the loop where it is. *)
Lemma play_loop_stalls dac : forall offset totalBytes s,
  0 <= offset < totalBytes -> totalBytes < 2 ^ 32 ->
  takes_nothing dac ->
  returned (play_loop dac offset totalBytes s) = false.
Proof.
  induction dac as [|accepts dac IH]; intros offset totalBytes s Hoff Htot Hdac.
  - simpl. destruct (Z.ltb_spec offset totalBytes); [reflexivity|lia].
  - cbn [play_loop]. destruct (Z.ltb_spec offset totalBytes) as [Hlt|Hge]; [|lia].
    inversion Hdac as [|? ? Ha Hdac']; subst. cbv zeta.
    assert (Hwr : forall size, 0 <= size -> i2s_write 0 size = 0)
      by (intros size Hs; unfold i2s_write; lia).
    rewrite Hwr by (rewrite u32_small by lia; lia).
    rewrite Z.add_0_r, (u32_small offset) by lia.
    rewrite bind_emit, with_prefix_returned.
    apply IH; assumption.
Qed.

(** A driver that takes every offer in full. *)
Lemma play_loop_stream dac : forall offset totalBytes s,
  0 <= offset -> totalBytes < 2 ^ 32 ->
  takes_at_least 1024 dac ->
  (totalBytes - offset + 1023) / 1024 <= Z.of_nat (length dac) ->
  let o := play_loop dac offset totalBytes s in
  returned o = true /\
  i2s_stream offset (out_trace o) = Some (Z.max offset totalBytes) /\
  (offset <= totalBytes ->
   Z.of_nat (length (out_trace o)) = (totalBytes - offset + 1023) / 1024).
Proof.
  induction dac as [|accepts dac IH]; intros offset totalBytes s Hoff Htot Hdac Hlen o;
    subst o.
  - cbn [length] in Hlen.
    assert (Hge : totalBytes <= offset)
      by (clear - Hlen; Z.div_mod_to_equations; lia).
    simpl. destruct (Z.ltb_spec offset totalBytes); [lia|]. simpl.
    repeat split; [f_equal; lia|].
    intros Hle. assert (totalBytes = offset) as -> by lia.
    rewrite Z.sub_diag. reflexivity.
  - cbn [play_loop]. destruct (Z.ltb_spec offset totalBytes) as [Hlt|Hge].
    2:{ simpl. repeat split; [f_equal; lia|].
        intros Hle. assert (totalBytes = offset) as -> by lia.
        rewrite Z.sub_diag. reflexivity. }
    rewrite (u32_small (totalBytes - offset)) by lia. cbv zeta.
    set (toWrite := Z.min 1024 (totalBytes - offset)).
    assert (Hw : 1 <= toWrite <= 1024 /\ toWrite <= totalBytes - offset)
      by (unfold toWrite; lia).
    inversion Hdac as [|? ? Ha Hdac']; subst.
    assert (Hwr : i2s_write accepts toWrite = toWrite)
      by (unfold i2s_write; lia).
    rewrite Hwr, (u32_small (offset + toWrite)) by lia.
    cbn [length] in Hlen.
    destruct (IH (offset + toWrite) totalBytes s) as (Hret & Hs & Hc);
      [lia|lia|exact Hdac'|
       unfold toWrite; clear - Hlen Hlt; Z.div_mod_to_equations; lia|].
    rewrite bind_emit, with_prefix_trace, with_prefix_returned.
    split; [exact Hret|]. split.
    + cbn [app i2s_stream]. rewrite Z.eqb_refl.
      destruct (Z.leb_spec 1 toWrite); [|lia].
      destruct (Z.leb_spec toWrite 1024); [|lia].
      cbn [andb]. rewrite Hs. f_equal. lia.
    + intros _. cbn [app length]. rewrite Nat2Z.inj_succ, Hc by lia.
      unfold toWrite. clear - Hlt. Z.div_mod_to_equations. lia.
Qed.

(** X5.  [playAudio dac totalBytes], for any answers [dac] of the DAC
    driver (the bytes it takes at each call): the globals are left alone,
    and every call offers between 1 and 1024 bytes of [44, totalBytes),
    starting where the driver stopped taking the previous offer.  When the
    function returns the driver has taken the bytes up to [totalBytes], and
    the DMA buffers are cleared between the last write and the closing log
    line; while it has not returned, bytes below [totalBytes] are still to
    be taken and every answer has been used up.  It returns at once, without
    a write, when [totalBytes <= 44]; it returns within [totalBytes - 44]
    calls when the driver takes at least one byte of every offer; it never
    returns when the driver takes nothing; and when the driver takes every
    offer in full it returns after ceil((totalBytes - 44) / 1024) writes
    that cover [44, totalBytes) in order and without gap. *)
Theorem playAudio_streams_payload (dac : Speaker) (totalBytes : Z) (s : State) :
  0 <= totalBytes < 2 ^ 32 ->
  let o := playAudio dac totalBytes s in
  exists t,
    Forall (dac_call WAV_HEADER_SIZE totalBytes) t /\
    (o = Done tt s (Serial (PlayStart totalBytes) :: t ++ [I2SZeroDma; Serial PlayDone]) /\
       fed dac WAV_HEADER_SIZE t = Some (Z.max WAV_HEADER_SIZE totalBytes) \/
     o = Blocked s (Serial (PlayStart totalBytes) :: t) /\
       (exists n, fed dac WAV_HEADER_SIZE t = Some n /\
                  WAV_HEADER_SIZE <= n < totalBytes) /\
       length t = length dac) /\
    (totalBytes <= WAV_HEADER_SIZE -> t = [] /\ returned o = true) /\
    (takes_at_least 1 dac ->
     totalBytes - WAV_HEADER_SIZE <= Z.of_nat (length dac) ->
       returned o = true) /\
    (takes_nothing dac -> WAV_HEADER_SIZE < totalBytes -> returned o = false) /\
    (takes_at_least 1024 dac ->
     (totalBytes - WAV_HEADER_SIZE + 1023) / 1024 <= Z.of_nat (length dac) ->
       returned o = true /\
       i2s_stream WAV_HEADER_SIZE t = Some (Z.max WAV_HEADER_SIZE totalBytes) /\
       (WAV_HEADER_SIZE <= totalBytes ->
        Z.of_nat (length t) = (totalBytes - WAV_HEADER_SIZE + 1023) / 1024)).
Proof.
  intros Htot o.
  assert (H44 : 0 <= WAV_HEADER_SIZE) by (unfold WAV_HEADER_SIZE; lia).
  assert (Hlt : totalBytes < 2 ^ 32) by lia.
  destruct (play_loop_shape dac WAV_HEADER_SIZE totalBytes s H44 Hlt)
    as (t & Hall & Hrun).
  destruct (play_loop_fed dac WAV_HEADER_SIZE totalBytes s H44 Hlt)
    as (n & Hfed & Hret & Hblk).
  pose proof (play_loop_progress dac WAV_HEADER_SIZE totalBytes s H44 Hlt) as Hprog.
  pose proof (play_loop_stalls dac WAV_HEADER_SIZE totalBytes s) as Hstall.
  pose proof (play_loop_stream dac WAV_HEADER_SIZE totalBytes s H44 Hlt) as Hstream.
  cbv zeta in Hstream.
  assert (Hsmall : totalBytes <= WAV_HEADER_SIZE ->
            play_loop dac WAV_HEADER_SIZE totalBytes s = Done tt s []).
  { intros Hle. destruct dac; simpl;
      (destruct (Z.ltb_spec WAV_HEADER_SIZE totalBytes); [lia|reflexivity]). }
  assert (Ho : returned o = returned (play_loop dac WAV_HEADER_SIZE totalBytes s)).
  { subst o. unfold playAudio, bind, emit.
    destruct (play_loop dac WAV_HEADER_SIZE totalBytes s) as [[] ? ?|? ?]; reflexivity. }
  assert (Ht : out_trace (play_loop dac WAV_HEADER_SIZE totalBytes s) = t)
    by (destruct Hrun as [-> | ->]; reflexivity).
  rewrite Ht in Hfed, Hblk, Hstream.
  exists t. split; [exact Hall|]. split; [|split; [|split; [|split]]].
  - destruct Hrun as [Hrun | Hrun]; [left|right]; rewrite Hrun in Hret, Hblk.
    + split; [subst o; unfold playAudio, bind, emit; rewrite Hrun; reflexivity|].
      rewrite Hfed, (Hret eq_refl). reflexivity.
    + split; [subst o; unfold playAudio, bind, emit; rewrite Hrun; reflexivity|].
      destruct (Hblk eq_refl) as [Hn Hlen]. split; [exists n; auto|exact Hlen].
  - intros Hle. rewrite Ho, (Hsmall Hle) in *. simpl in Ht. auto.
  - intros Hdac Hlen. rewrite Ho. apply Hprog; assumption.
  - intros Hdac Hgt. rewrite Ho. apply Hstall; [lia|lia|exact Hdac].
  - intros Hdac Hlen. rewrite Ho. apply Hstream; assumption.
Qed.

Lemma playAudio_streams_payload_witness :
  let dac := [1024%nat; 2000%nat; 1024%nat] in
  exists t,
    playAudio dac 2100 (initial (replicate 64 0)) =
      Done tt (initial (replicate 64 0))
           (Serial (PlayStart 2100) :: t ++ [I2SZeroDma; Serial PlayDone]) /\
    i2s_stream WAV_HEADER_SIZE t = Some 2100 /\
    Z.of_nat (length t) = 3.
Proof.
  intros dac.
  destruct (playAudio_streams_payload dac 2100 (initial (replicate 64 0)))
    as (t & _ & Hrun & _ & _ & _ & Hfull); [lia|].
  destruct Hfull as (Hret & Hs & Hc);
    [repeat constructor; lia|vm_compute; discriminate|].
  exists t. split; [|split; [exact Hs|apply Hc; unfold WAV_HEADER_SIZE; lia]].
  destruct Hrun as [[Hd _] | [Hb _]]; [exact Hd|].
  rewrite Hb in Hret. discriminate Hret.
Defined.

(** ** Empty polls *)

(** X6.  Polls that find nothing available change nothing but the waiting:
    dropping them from the stream gives the same result, the same globals
    and, delays apart, the same effects. *)
Theorem read_loop_ignores_empty_polls (L : Z) (ps : list Poll) (b : Z) (s : State) :
  let o := read_loop L ps b s in
  let o' := read_loop L (nonempty_polls ps) b s in
  out_value o = out_value o' /\
  out_state o = out_state o' /\
  without_delays (out_trace o) = out_trace o'.
Proof.
  revert b s. induction ps as [|p ps IH]; intros b s; cbv zeta.
  - simpl. destruct (b <? u32 L); repeat split; reflexivity.
  - destruct (Z.lt_ge_cases b (u32 L)) as [Hlt|Hge].
    2:{ rewrite !read_loop_exit by lia. repeat split; reflexivity. }
    destruct (Z.eq_dec (polled p) 0) as [H0|H0].
    + rewrite read_loop_empty_poll by assumption. rewrite bind_emit.
      unfold nonempty_polls. cbn [List.filter]. rewrite H0. cbn [Z.eqb negb].
      fold (nonempty_polls ps).
      destruct (IH b s) as (Hv & Hs & Ht).
      destruct (read_loop L ps b s); simpl in *; auto.
    + rewrite read_loop_data_poll by assumption.
      unfold nonempty_polls. cbn [List.filter].
      destruct (Z.eqb_spec (polled p) 0) as [|_]; [contradiction|]. cbn [negb].
      fold (nonempty_polls ps).
      rewrite read_loop_data_poll by assumption. cbv zeta.
      rewrite !bind_store.
      match goal with |- context [read_loop L ps ?b' ?s1] =>
        destruct (IH b' s1) as (Hv & Hs & Ht) end.
      rewrite !with_prefix_state, !with_prefix_trace.
      repeat split; auto.
      * destruct (read_loop L ps _ _), (read_loop L (nonempty_polls ps) _ _);
          simpl in *; congruence.
      * simpl. f_equal. exact Ht.
Qed.


(** ** The exchange as a whole *)

(** In the audio branch the call has returned when both the read loop and
    the playback have. *)
Lemma receive_and_play_returned L ps dac s :
  let rl := read_loop L ps 0 s in
  returned ((bytesRead <- read_loop L ps 0 ;;
             playAudio dac bytesRead ;; emit HttpEnd ;; emit (Led LOW)) s) =
  match rl with
  | Done n s1 _ => returned (playAudio dac n s1)
  | Blocked _ _ => false
  end.
Proof.
  cbv zeta. unfold bind.
  destruct (read_loop L ps 0 s) as [n s1 t1|s1 t1]; [|reflexivity].
  destruct (playAudio dac n s1) as [[] s2 t2|s2 t2]; reflexivity.
Qed.

(** X7.  One call of [sendAudioToServer] on an established link, whatever
    the server replies and whatever the DAC driver takes: exactly one POST
    (no retry), at most one playback, the cursor and the two flags
    untouched, the buffer length unchanged and every store inside the
    allocation.  When the call returns it has closed the connection exactly
    once and switched the LED off last; while it has not returned the
    connection is not closed.  It has not returned exactly when the reply is
    a 200 audio reply that fits the buffer and either the read loop is still
    waiting for the body, or the body is complete and [playAudio], called
    with the declared length, has not returned. *)
Theorem exchange_effects (r : Response) (dac : Speaker) (s : State) :
  let o := sendAudioToServer true r dac s in
  let L := getSize r in
  let rl := read_loop L (polls r) 0 s in
  count is_post (out_trace o) = 1%nat /\
  (count is_play (out_trace o) <= 1)%nat /\
  audioBufferPos (out_state o) = audioBufferPos s /\
  isRecording (out_state o) = isRecording s /\
  lastButtonState (out_state o) = lastButtonState s /\
  length (audioBuffer (out_state o)) = length (audioBuffer s) /\
  Forall write_in_bounds (out_trace o) /\
  count is_http_end (out_trace o) = (if returned o then 1 else 0)%nat /\
  (returned o = true -> exists t, out_trace o = t ++ [HttpEnd; Led LOW]) /\
  (returned o = false <->
     httpCode r = 200 /\ is_audio_reply r = true /\
     L <= MAX_AUDIO_BYTES + WAV_HEADER_SIZE /\
     (returned rl = false \/
      returned rl = true /\ returned (playAudio dac L (out_state rl)) = false)).
Proof.
  intros o L rl.
  destruct (send_spec r dac s) as (Hpost & Hplay & Hp & Hr & Hl & Hlen & Hw).
  fold o in Hpost, Hplay, Hp, Hr, Hl, Hlen, Hw.
  repeat (split; [assumption|]).
  subst o.
  destruct (Z.eq_dec (httpCode r) 200) as [H200|Herr].
  2:{ rewrite send_error by exact Herr. simpl.
      split; [reflexivity|]. split.
      - intros _. exists (post_prefix s ++ [Serial (HttpError (httpCode r))]).
        rewrite <- app_assoc. reflexivity.
      - split; [discriminate|]. intros (H & _). contradiction. }
  destruct (is_audio_reply r) eqn:Ha.
  2:{ rewrite send_text by assumption. simpl.
      split; [reflexivity|]. split.
      - intros _.
        exists (post_prefix s ++ [Serial (ResponseReceived 200); Serial (ServerText (getString r))]).
        rewrite <- app_assoc. reflexivity.
      - split; [discriminate|]. intros (_ & H & _). discriminate H. }
  destruct (Z.le_gt_cases L (MAX_AUDIO_BYTES + WAV_HEADER_SIZE)) as [Hfit|Hbig].
  2:{ rewrite send_too_large by (assumption || (fold L; lia)). simpl.
      split; [reflexivity|]. split.
      - intros _.
        exists (post_prefix s ++ [Serial (ResponseReceived 200);
                  Serial (AudioResponse (getSize r)); Serial TooLarge]).
        rewrite <- app_assoc. reflexivity.
      - split; [discriminate|]. intros (_ & _ & H & _). lia. }
  rewrite send_audio by assumption.
  pose proof (is_audio_reply_size r Ha) as Hsz. fold L in Hsz.
  unfold WAV_HEADER_SIZE in Hsz.
  assert (HL : 0 <= L < 2 ^ 32).
  { rewrite MAX_AUDIO_BYTES_eq in Hfit. unfold WAV_HEADER_SIZE in Hfit. lia. }
  pose proof (receive_and_play_returned L (polls r) dac s) as Hret.
  cbv zeta in Hret. fold rl in Hret.
  destruct (receive_and_play L (polls r) dac s HL)
    as (s1 & t1 & _ & _ & _ & _ & _ & Hev & Hcase).
  fold L. rewrite with_prefix_returned, with_prefix_trace, count_app.
  assert (Hend1 : count is_http_end t1 = 0%nat).
  { apply (read_events_count _ 0 L); [intros []; simpl; tauto|exact Hev]. }
  assert (Hpre : count is_http_end
            (post_prefix s ++
             [Serial (ResponseReceived 200); Serial (AudioResponse L)]) = 0%nat)
    by reflexivity.
  rewrite Hpre.
  destruct Hcase as [(Hrl & _ & Ho) | (Hrl & _ & tp & Hall & Ho)].
  - fold rl in Hrl. rewrite Ho. cbn [returned out_trace]. rewrite Hend1.
    split; [reflexivity|]. split; [discriminate|].
    split; [|reflexivity]. intros _.
    split; [exact H200|]. split; [reflexivity|]. split; [exact Hfit|].
    left. rewrite Hrl. reflexivity.
  - fold rl in Hrl. rewrite Hrl in Hret |- *. cbn [returned out_state].
    assert (Hend2 : count is_http_end tp = 0%nat).
    { apply (count_dac_calls _ WAV_HEADER_SIZE L);
        [intros []; simpl; congruence|exact Hall]. }
    destruct Ho as [Ho | Ho]; rewrite Ho in Hret |- *; cbn [returned out_trace] in *.
    + rewrite !count_app, !count_cons, !count_app, Hend1, Hend2.
      split; [reflexivity|]. split.
      * intros _. eexists.
        rewrite !app_comm_cons, !app_assoc.
        change [I2SZeroDma; Serial PlayDone; HttpEnd; Led LOW]
          with ([I2SZeroDma; Serial PlayDone] ++ [HttpEnd; Led LOW]).
        rewrite !app_assoc. reflexivity.
      * split; [discriminate|].
        intros (_ & _ & _ & [H | [_ H]]); [discriminate H|].
        rewrite <- Hret in H. discriminate H.
    + rewrite !count_app, !count_cons, Hend1, Hend2.
      split; [reflexivity|]. split; [discriminate|].
      split; [|reflexivity]. intros _.
      split; [exact H200|]. split; [reflexivity|]. split; [exact Hfit|].
      right. split; [reflexivity|].
      symmetry. exact Hret.
Qed.

(** ** The controller never leaves the buffer *)

Lemma bind_blocked {A B} (c : Cmd A) (k : A -> Cmd B) s s1 t1 :
  c s = Blocked s1 t1 -> (x <- c ;; k x) s = Blocked s1 t1.
Proof. intros H. unfold bind. rewrite H. reflexivity. Qed.

Lemma capture_step rd s :
  WAV_HEADER_SIZE <= audioBufferPos s <= capacity ->
  exists s' t,
    captureAudioChunk rd s = Done tt s' t /\
    audioBufferPos s <= audioBufferPos s' <= capacity /\
    lastButtonState s' = lastButtonState s /\
    length (audioBuffer s') = length (audioBuffer s) /\
    Forall write_in_bounds t.
Proof.
  intros Hpos.
  destruct (captures_spec [rd] s Hpos)
    as (s' & t & Hc & Hp & Hl & Hlen & _ & _ & Hw & _).
  simpl in Hc. unfold bind, ret in Hc.
  destruct (captureAudioChunk rd s) as [[] s1 t1|s1 t1]; [|discriminate].
  inversion Hc; subst. rewrite app_nil_r in Hw. eauto 10.
Qed.

Lemma loop_keeps_cursor inp s :
  cursor_ok s ->
  let o := loop inp s in
  cursor_ok (out_state o) /\
  length (audioBuffer (out_state o)) = length (audioBuffer s) /\
  Forall write_in_bounds (out_trace o).
Proof.
  intros [Hpos Hrec] o. subst o.
  assert (Hcap : 0 <= WAV_HEADER_SIZE <= capacity)
    by (rewrite capacity_eq; unfold WAV_HEADER_SIZE; lia).
  destruct (button inp) eqn:Hbut.
  - (* button down *)
    destruct (lastButtonState s) eqn:Hlast.
    + rewrite loop_hold by assumption.
      destruct (isRecording s) eqn:Hr.
      * destruct (capture_step (mic inp) s) as (s' & t & Hc & Hp & Hl & Hlen & Hw);
          [split; [auto|lia]|].
        rewrite (bind_done _ _ _ _ _ _ Hc). simpl.
        rewrite ?app_nil_r. split; [|split; [exact Hlen|]].
        -- unfold cursor_ok. simpl. split; [lia|]. intros _.
           specialize (Hrec eq_refl). lia.
        -- apply Forall_app. split; [exact Hw|repeat constructor].
      * simpl. split; [|split; [reflexivity|repeat constructor]].
        unfold cursor_ok. simpl. split; [lia|]. rewrite Hr. discriminate.
    + rewrite loop_press by assumption.
      destruct (capture_step (mic inp)
                  (mkState (audioBuffer s) WAV_HEADER_SIZE true HIGH))
        as (s' & t & Hc & Hp & Hl & Hlen & Hw); [simpl; lia|].
      rewrite (bind_done _ _ _ _ _ _ Hc). simpl in *.
      rewrite ?app_nil_r. split; [|split; [exact Hlen|]].
      * unfold cursor_ok. simpl. split; lia.
      * repeat constructor. apply Forall_app. split; [exact Hw|repeat constructor].
  - (* button up *)
    destruct (lastButtonState s) eqn:Hlast.
    2:{ rewrite loop_button_up by auto. simpl.
        split; [|split; [reflexivity|repeat constructor]].
        unfold cursor_ok. simpl. auto. }
    destruct (isRecording s) eqn:Hr.
    2:{ rewrite loop_button_up by auto. simpl.
        split; [|split; [reflexivity|repeat constructor]].
        unfold cursor_ok. simpl. split; [lia|]. rewrite Hr. discriminate. }
    rewrite loop_release by assumption.
    assert (Hstop : Forall write_in_bounds (stop_trace s)).
    { repeat constructor; cbn [write_in_bounds]; lia. }
    rewrite with_prefix_state, with_prefix_trace.
    assert (Hlen0 : length (audioBuffer (stopped s)) = length (audioBuffer s)).
    { unfold stopped. cbn [audioBuffer]. apply writeWavHeader_length. }
    assert (Hpos0 : audioBufferPos (stopped s) = audioBufferPos s) by reflexivity.
    assert (Hrec0 : isRecording (stopped s) = false) by reflexivity.
    assert (Htail : forall s1 : State,
              (modify (set_button HIGH) ;; emit (Delay 10)) s1 =
              Done tt (set_button HIGH s1) [Delay 10]) by reflexivity.
    generalize dependent (stopped s). intros s0 Hlen0 Hpos0 Hrec0.
    assert (Hfin : forall (s1 : State) (t1 : Trace),
              audioBufferPos s1 = audioBufferPos s0 ->
              isRecording s1 = isRecording s0 ->
              length (audioBuffer s1) = length (audioBuffer s0) ->
              Forall write_in_bounds t1 ->
              cursor_ok s1 /\ cursor_ok (set_button HIGH s1) /\
              length (audioBuffer s1) = length (audioBuffer s)).
    { intros s1 t1 Hp1 Hr1 Hl1 _. unfold cursor_ok. cbn [set_button audioBufferPos isRecording].
      rewrite Hp1, Hr1, Hpos0, Hrec0, Hl1, Hlen0.
      repeat split; try lia; discriminate. }
    destruct (long_enough _).
    + destruct (wifi_connected inp).
      * destruct (send_spec (reply inp) (speaker inp) s0)
          as (_ & _ & Hp & Hr' & Hl & Hlen & Hw).
        destruct (sendAudioToServer true (reply inp) (speaker inp) s0)
          as [[] s1 t1|s1 t1] eqn:Hsend;
          cbn [out_state out_trace] in *.
        -- rewrite (bind_done _ _ _ _ _ _ Hsend), Htail.
           cbn [with_prefix out_state out_trace].
           destruct (Hfin s1 t1 Hp Hr' Hlen Hw) as (_ & Hc & Hl1).
           split; [exact Hc|split; [exact Hl1|]].
           apply Forall_app. split; [exact Hstop|].
           apply Forall_app. split; [exact Hw|repeat constructor].
        -- rewrite (bind_blocked _ _ _ _ _ Hsend).
           cbn [out_state out_trace].
           destruct (Hfin s1 t1 Hp Hr' Hlen Hw) as (Hc & _ & Hl1).
           split; [exact Hc|split; [exact Hl1|]].
           apply Forall_app. split; [exact Hstop|exact Hw].
      * rewrite (bind_done _ _ _ _ _ _ (send_offline (reply inp) (speaker inp) s0)), Htail.
        cbn [with_prefix out_state out_trace].
        destruct (Hfin s0 [] eq_refl eq_refl eq_refl) as (_ & Hc & Hl1); [constructor|].
        split; [exact Hc|split; [exact Hl1|]].
        apply Forall_app. split; [exact Hstop|repeat constructor].
    + rewrite bind_emit, Htail. cbn [with_prefix out_state out_trace].
      destruct (Hfin s0 [] eq_refl eq_refl eq_refl) as (_ & Hc & Hl1); [constructor|].
      split; [exact Hc|split; [exact Hl1|]].
      apply Forall_app. split; [exact Hstop|repeat constructor].
Qed.

(** X8.  From power-up and for every sequence of button levels, microphone
    reads, link states and server replies: every store the firmware makes
    into the audio buffer (captured chunks, the header, response bytes)
    lies inside the allocated [capacity] bytes, the cursor stays within
    [0, capacity], and the buffer keeps its length. *)
Theorem run_stays_in_buffer (inputs : list LoopInput) (buf : list Z) :
  let o := run inputs (initial buf) in
  Forall write_in_bounds (out_trace o) /\
  0 <= audioBufferPos (out_state o) <= capacity /\
  length (audioBuffer (out_state o)) = length buf.
Proof.
  assert (Hgen : forall inputs s, cursor_ok s ->
            Forall write_in_bounds (out_trace (run inputs s)) /\
            cursor_ok (out_state (run inputs s)) /\
            length (audioBuffer (out_state (run inputs s))) = length (audioBuffer s)).
  { clear. induction inputs as [|inp inputs IH]; intros s Hs.
    - simpl. repeat split; auto; apply Hs.
    - rewrite run_cons. unfold bind.
      destruct (loop_keeps_cursor inp s Hs) as (Hs1 & Hlen1 & Hw1).
      destruct (loop inp s) as [[] s1 t1|s1 t1]; simpl in *; [|auto].
      destruct (IH s1 Hs1) as (Hw2 & Hs2 & Hlen2).
      destruct (run inputs s1) as [[] s2 t2|s2 t2]; simpl in *;
        (split; [apply Forall_app; auto|split; [auto|congruence]]). }
  intros o. subst o.
  destruct (Hgen inputs (initial buf)) as (Hw & [Hp _] & Hlen).
  { unfold cursor_ok. simpl. rewrite capacity_eq. split; [lia|discriminate]. }
  auto.
Qed.


(** ** What ends up in the buffer *)

Lemma list_inserts_take_drop {A} (i : nat) (k l : list A) :
  (i + length k <= length l)%nat ->
  list_inserts i k l = take i l ++ k ++ drop (i + length k) l.
Proof.
  intros Hlen.
  rewrite <- (take_drop i l) at 1.
  rewrite <- (take_drop (length k) (drop i l)) at 1.
  rewrite drop_drop.
  assert (Hi : length (take i l) = i) by (rewrite length_take; lia).
  rewrite <- Hi at 1. rewrite <- (Nat.add_0_r (length (take i l))).
  rewrite list_inserts_app_r. f_equal.
  apply list_inserts_0_r. rewrite length_take, length_drop. lia.
Qed.

Lemma set_buffer_same s : set_buffer (audioBuffer s) s = s.
Proof. destruct s; reflexivity. Qed.

Lemma read_loop_stores_stream L :
  0 <= L < 2 ^ 32 ->
  forall ps b s, 0 <= b <= L -> L <= Z.of_nat (length (audioBuffer s)) ->
  Forall well_behaved ps -> L - b <= total_available ps ->
  exists t,
    read_loop L ps b s =
    Done L (set_buffer (take (Z.to_nat b) (audioBuffer s) ++
                        take (Z.to_nat (L - b)) (stream_bytes ps) ++
                        drop (Z.to_nat L) (audioBuffer s)) s) t.
Proof.
  intros HL ps. induction ps as [|p ps IH]; intros b s Hb Hbuf Hwb Htot.
  - simpl in Htot. assert (b = L) as -> by lia.
    exists []. rewrite read_loop_exit by (rewrite u32_small by lia; lia).
    rewrite Z.sub_diag. simpl. rewrite take_drop, set_buffer_same. reflexivity.
  - destruct (Z.lt_ge_cases b L) as [Hlt|Hge].
    2:{ assert (b = L) as -> by lia.
        exists []. rewrite read_loop_exit by (rewrite u32_small by lia; lia).
        rewrite Z.sub_diag. simpl. rewrite take_drop, set_buffer_same. reflexivity. }
    inversion Hwb as [|? ? Hp Hps]; subst. simpl in Htot.
    apply polled_le_incoming in Hp. pose proof (polled_bounds p) as Hpb.
    pose proof (total_available_nonneg ps Hps) as Hnn.
    destruct (Z.eq_dec (polled p) 0) as [H0|H0].
    + rewrite read_loop_empty_poll by (rewrite ?u32_small by lia; lia).
      rewrite bind_emit.
      destruct (IH b s Hb Hbuf Hps) as (t & Hrl); [lia|].
      rewrite Hrl. cbn [stream_bytes with_prefix]. rewrite H0. simpl. eauto.
    + rewrite read_loop_data_poll by (rewrite ?u32_small by lia; lia).
      cbv zeta. rewrite (u32_small (L - b)) by lia.
      set (g := Z.min (polled p) (L - b)).
      set (data := take (Z.to_nat g) (incoming p)).
      assert (Hg : Z.of_nat (length data) = g).
      { unfold data. rewrite length_take. unfold g. lia. }
      rewrite bind_store, Hg, (u32_small (b + g)) by (unfold g; lia).
      set (buf := audioBuffer s) in *.
      assert (Hins : list_inserts (Z.to_nat b) data buf =
                     take (Z.to_nat b) buf ++ data ++ drop (Z.to_nat (b + g)) buf).
      { rewrite list_inserts_take_drop by (unfold g in *; lia).
        do 3 f_equal. lia. }
      rewrite Hins.
      set (buf1 := take (Z.to_nat b) buf ++ data ++ drop (Z.to_nat (b + g)) buf).
      assert (Hlen1 : length buf1 = length buf).
      { unfold buf1. rewrite !length_app, length_take, length_drop.
        unfold g in *. lia. }
      destruct (IH (b + g) (set_buffer buf1 s)) as (t & Hrl);
        [unfold g; lia|cbn [set_buffer audioBuffer]; lia|exact Hps|unfold g; lia|].
      rewrite Hrl. cbn [with_prefix set_buffer audioBuffer audioBufferPos
                        isRecording lastButtonState].
      eexists. f_equal. unfold set_buffer. f_equal.
      assert (Htk : take (Z.to_nat (b + g)) buf1 = take (Z.to_nat b) buf ++ data).
      { unfold buf1. rewrite app_assoc. apply take_app_length'.
        rewrite length_app, length_take. unfold g in *. lia. }
      assert (Hdr : drop (Z.to_nat L) buf1 = drop (Z.to_nat L) buf).
      { unfold buf1. rewrite app_assoc.
        assert (HL' : Z.to_nat L =
          (length (take (Z.to_nat b) buf ++ data) + Z.to_nat (L - (b + g)))%nat)
          by (rewrite length_app, length_take; unfold g in *; lia).
        rewrite HL' at 1.
        rewrite drop_app_add, drop_drop. f_equal. unfold g in *. lia. }
      assert (Hmid : data ++ take (Z.to_nat (L - (b + g))) (stream_bytes ps) =
                     take (Z.to_nat (L - b)) (stream_bytes (p :: ps))).
      { cbn [stream_bytes]. unfold data, g.
        destruct (Z.le_gt_cases (polled p) (L - b)) as [Hle|Hgt].
        - rewrite Z.min_l by lia.
          replace (Z.to_nat (L - b)) with
            (length (take (Z.to_nat (polled p)) (incoming p)) +
             Z.to_nat (L - (b + polled p)))%nat
            by (rewrite length_take; lia).
          rewrite take_app_add. reflexivity.
        - rewrite Z.min_r by lia.
          replace (L - (b + (L - b))) with 0 by lia. simpl. rewrite app_nil_r.
          rewrite take_app_le by (rewrite length_take; lia).
          rewrite take_take. f_equal. lia. }
      rewrite Htk, Hdr, <- Hmid, <- !app_assoc. reflexivity.
Qed.

(** X9.  When the stream hands over what it announces and announces at
    least the declared length [L], the read loop returns with exactly [L]
    bytes read, and the buffer then holds the first [L] bytes of the stream
    at offsets [0, L) and its previous contents from offset [L] on; the
    cursor and the flags are untouched. *)
Theorem read_loop_fills_buffer (L : Z) (ps : list Poll) (s : State) :
  0 <= L < 2 ^ 32 -> L <= Z.of_nat (length (audioBuffer s)) ->
  Forall well_behaved ps -> L <= total_available ps ->
  exists t,
    read_loop L ps 0 s =
    Done L (set_buffer (take (Z.to_nat L) (stream_bytes ps) ++
                        drop (Z.to_nat L) (audioBuffer s)) s) t.
Proof.
  intros HL Hbuf Hwb Htot.
  destruct (read_loop_stores_stream L HL ps 0 s) as (t & Hrl);
    [lia|exact Hbuf|exact Hwb|lia|].
  exists t. rewrite Hrl, Z.sub_0_r. reflexivity.
Qed.

Lemma read_loop_fills_buffer_witness :
  exists t,
    read_loop 5 [mkPoll 0 []; mkPoll 3 [1; 2; 3]; mkPoll 4 [4; 5; 6; 7]] 0
      (initial [9; 9; 9; 9; 9; 9; 9; 9]) =
    Done 5 (mkState [1; 2; 3; 4; 5; 9; 9; 9] 0 false HIGH) t.
Proof.
  destruct (read_loop_fills_buffer 5
              [mkPoll 0 []; mkPoll 3 [1; 2; 3]; mkPoll 4 [4; 5; 6; 7]]
              (initial [9; 9; 9; 9; 9; 9; 9; 9])) as (t & Hrl).
  - lia.
  - simpl. lia.
  - repeat constructor; simpl; lia.
  - vm_compute. discriminate.
  - exists t. exact Hrl.
Defined.


(** ** From the microphone to the POST body *)

Lemma good_read_length rd :
  good_read rd -> 0 < Z.of_nat (length (chunk_of rd)).
Proof. intros [_ H]. destruct (chunk_of rd); [congruence|simpl; lia]. Qed.

Lemma held_step rd c r s :
  lastButtonState s = LOW -> isRecording s = true -> good_read rd ->
  WAV_HEADER_SIZE <= audioBufferPos s ->
  audioBufferPos s + Z.of_nat (length (chunk_of rd)) <= capacity ->
  capacity <= Z.of_nat (length (audioBuffer s)) ->
  loop (held rd c r) s =
  Done tt (mkState (take (Z.to_nat (audioBufferPos s)) (audioBuffer s) ++ chunk_of rd ++
                    drop (Z.to_nat (audioBufferPos s + Z.of_nat (length (chunk_of rd))))
                         (audioBuffer s))
                   (audioBufferPos s + Z.of_nat (length (chunk_of rd))) true LOW)
          [BufWrite (audioBufferPos s) (Z.of_nat (length (chunk_of rd))); Delay 10].
Proof.
  intros Hlast Hrec Hgood Hlo Hhi Hbuf.
  pose proof (good_read_length rd Hgood) as Hpos. destruct Hgood as [Hok _].
  unfold WAV_HEADER_SIZE in Hlo.
  rewrite loop_hold by auto. rewrite Hrec. cbn [held mic].
  unfold bind. rewrite capture_store; fold (chunk_of rd); auto; try lia.
  cbn [modify emit set_button audioBuffer audioBufferPos isRecording app].
  rewrite list_inserts_take_drop by lia.
  unfold set_button. cbn [audioBuffer audioBufferPos isRecording lastButtonState].
  replace (Z.to_nat (audioBufferPos s) + length (chunk_of rd))%nat
    with (Z.to_nat (audioBufferPos s + Z.of_nat (length (chunk_of rd)))) by lia.
  reflexivity.
Qed.

Lemma run_held_payload c r reads : forall s,
  lastButtonState s = LOW -> isRecording s = true -> Forall good_read reads ->
  WAV_HEADER_SIZE <= audioBufferPos s ->
  audioBufferPos s + Z.of_nat (length (payload_of reads)) <= capacity ->
  capacity <= Z.of_nat (length (audioBuffer s)) ->
  exists t,
    run (map (fun rd => held rd c r) reads) s =
    Done tt (mkState (take (Z.to_nat (audioBufferPos s)) (audioBuffer s) ++
                      payload_of reads ++
                      drop (Z.to_nat (audioBufferPos s + Z.of_nat (length (payload_of reads))))
                           (audioBuffer s))
                     (audioBufferPos s + Z.of_nat (length (payload_of reads))) true LOW) t /\
    count is_post t = 0%nat.
Proof.
  induction reads as [|rd reads IH]; intros s Hlast Hrec Hgood Hlo Hhi Hbuf.
  - exists []. split; [|reflexivity]. simpl. unfold ret.
    rewrite Z.add_0_r, take_drop. destruct s; simpl in *; subst. reflexivity.
  - inversion Hgood as [|? ? Hg Hgs]; subst.
    cbn [payload_of] in *. rewrite length_app, Nat2Z.inj_add in Hhi.
    set (g := Z.of_nat (length (chunk_of rd))) in *.
    set (m := Z.of_nat (length (payload_of reads))) in *.
    pose proof (good_read_length rd Hg) as Hgpos. fold g in Hgpos.
    assert (Hm : 0 <= m) by (unfold m; lia).
    unfold WAV_HEADER_SIZE in Hlo.
    cbn [map]. rewrite run_cons.
    rewrite (bind_done _ _ _ _ _ _
               (held_step rd c r s Hlast Hrec Hg ltac:(unfold WAV_HEADER_SIZE; lia)
                  ltac:(fold g; lia) Hbuf)).
    fold g.
    set (buf := audioBuffer s) in *. set (pos := audioBufferPos s) in *.
    set (buf1 := take (Z.to_nat pos) buf ++ chunk_of rd ++ drop (Z.to_nat (pos + g)) buf).
    assert (Hlen1 : length buf1 = length buf).
    { unfold buf1. rewrite !length_app, length_take, length_drop. unfold g in *. lia. }
    destruct (IH (mkState buf1 (pos + g) true LOW)) as (t & Hrun & Hcnt);
      [reflexivity|reflexivity|exact Hgs|
       cbn [audioBufferPos]; unfold WAV_HEADER_SIZE; lia|
       cbn [audioBufferPos]; fold m; lia|
       cbn [audioBuffer]; lia|].
    cbn [audioBuffer audioBufferPos] in Hrun. fold m in Hrun.
    rewrite Hrun. cbn [with_prefix].
    exists ([BufWrite pos g; Delay 10] ++ t). split; [|exact Hcnt].
    f_equal. rewrite length_app, Nat2Z.inj_add. fold g m. f_equal; [|lia].
    assert (Htk : take (Z.to_nat (pos + g)) buf1 = take (Z.to_nat pos) buf ++ chunk_of rd).
    { unfold buf1. rewrite app_assoc. apply take_app_length'.
      rewrite length_app, length_take. unfold g in *. lia. }
    assert (Hdr : drop (Z.to_nat (pos + g + m)) buf1 = drop (Z.to_nat (pos + (g + m))) buf).
    { unfold buf1. rewrite app_assoc.
      assert (HL' : Z.to_nat (pos + g + m) =
          (length (take (Z.to_nat pos) buf ++ chunk_of rd) + Z.to_nat m)%nat)
        by (rewrite length_app, length_take; unfold g in *; lia).
      rewrite HL'. rewrite drop_app_add, drop_drop. f_equal. unfold g in *. lia. }
    rewrite Htk, Hdr, <- !app_assoc. reflexivity.
Qed.

Lemma send_trace_prefix r dac s :
  exists t, out_trace (sendAudioToServer true r dac s) = post_prefix s ++ t.
Proof.
  destruct (Z.eq_dec (httpCode r) 200) as [H200|Herr].
  2:{ rewrite send_error by exact Herr. simpl. eauto. }
  destruct (is_audio_reply r) eqn:Ha.
  2:{ rewrite send_text by assumption. simpl. eauto. }
  destruct (Z.le_gt_cases (getSize r) (MAX_AUDIO_BYTES + WAV_HEADER_SIZE)) as [Hfit|Hbig].
  2:{ rewrite send_too_large by (assumption || lia). simpl. eauto. }
  rewrite send_audio by assumption.
  rewrite with_prefix_trace, <- app_assoc. eauto.
Qed.

(** X10.  Press, hold while the microphone delivers the chunks of [reads]
    (at least 0.3 s and at most 15 s of audio in all), release, link up:
    the firmware posts exactly once, and the body is the 44-byte header for
    [n] payload bytes followed by the captured chunks in order and nothing
    else; the length declared at bytes 40..43 of the body is [n] and the
    body is [44 + n] bytes long. *)
Theorem recording_is_posted_as_wav
    (rd : I2SRead) (reads : list I2SRead) (r : Response) (dac : Speaker)
    (buf : list Z) :
  Z.of_nat (length buf) = capacity ->
  Forall good_read (rd :: reads) ->
  let payload := payload_of (rd :: reads) in
  let n := Z.of_nat (length payload) in
  3 * (SAMPLE_RATE * BYTES_PER_SAMPLE) <= 10 * n -> n <= MAX_AUDIO_BYTES ->
  let inputs := map (fun x => held x true r) (rd :: reads) ++ [released true r dac] in
  let body := wavHeaderBytes n ++ payload in
  (exists t1 t2,
     out_trace (run inputs (initial buf)) = t1 ++ HttpPost body :: t2 /\
     count is_post t1 = 0%nat /\ count is_post t2 = 0%nat) /\
  le32_at body 40 = n /\
  Z.of_nat (length body) = WAV_HEADER_SIZE + n.
Proof.
  intros Hbuf Hgood payload n Hmin Hmax inputs body.
  rewrite MAX_AUDIO_BYTES_eq in Hmax. rewrite capacity_eq in Hbuf.
  assert (Hn0 : 0 <= n) by (unfold n; lia).
  split; [|split].
  2:{ unfold body. apply le32_at_header_data. lia. }
  2:{ unfold body. rewrite length_app, wavHeaderBytes_length, Nat2Z.inj_add.
      fold n. unfold WAV_HEADER_SIZE. lia. }
  inversion Hgood as [|? ? Hg Hgs]; subst.
  pose proof (good_read_length rd Hg) as Hgpos.
  set (g := Z.of_nat (length (chunk_of rd))) in *.
  set (m := Z.of_nat (length (payload_of reads))).
  assert (Hnm : n = g + m).
  { unfold n, payload. cbn [payload_of]. rewrite length_app, Nat2Z.inj_add. reflexivity. }
  assert (Hm : 0 <= m) by (unfold m; lia).
  (* the press, with the first chunk *)
  set (buf1 := take 44 buf ++ chunk_of rd ++ drop (Z.to_nat (WAV_HEADER_SIZE + g)) buf).
  assert (H1 : loop (held rd true r) (initial buf) =
               Done tt (mkState buf1 (WAV_HEADER_SIZE + g) true LOW)
                    [Led HIGH; Serial RecStarted; BufWrite WAV_HEADER_SIZE g; Delay 10]).
  { rewrite loop_press by reflexivity. cbn [held mic initial audioBuffer].
    destruct Hg as [Hok _].
    unfold bind. rewrite capture_store; fold (chunk_of rd); fold g;
      cbn [audioBufferPos isRecording]; auto;
      try (rewrite ?capacity_eq; unfold WAV_HEADER_SIZE; lia).
    cbn [modify emit app]. unfold set_button.
    cbn [audioBuffer audioBufferPos isRecording lastButtonState].
    rewrite list_inserts_take_drop by (fold g; unfold WAV_HEADER_SIZE; lia).
    unfold buf1.
    replace (Z.to_nat WAV_HEADER_SIZE + length (chunk_of rd))%nat
      with (Z.to_nat (WAV_HEADER_SIZE + g)) by (unfold g; unfold WAV_HEADER_SIZE; lia).
    reflexivity. }
  assert (Hlen1 : length buf1 = length buf).
  { unfold buf1. rewrite !length_app, length_take, length_drop.
    unfold g, WAV_HEADER_SIZE in *. lia. }
  (* the remaining chunks *)
  destruct (run_held_payload true r reads (mkState buf1 (WAV_HEADER_SIZE + g) true LOW))
    as (t2 & H2 & Hc2);
    [reflexivity|reflexivity|exact Hgs|cbn [audioBufferPos]; lia|
     cbn [audioBufferPos]; fold m; rewrite capacity_eq; unfold WAV_HEADER_SIZE; lia|
     cbn [audioBuffer]; rewrite capacity_eq; lia|].
  cbn [audioBuffer audioBufferPos] in H2. fold m in H2.
  set (buf2 := take (Z.to_nat (WAV_HEADER_SIZE + g)) buf1 ++ payload_of reads ++
               drop (Z.to_nat (WAV_HEADER_SIZE + g + m)) buf1) in *.
  set (s2 := mkState buf2 (WAV_HEADER_SIZE + g + m) true LOW) in *.
  assert (Hbuf2 : buf2 = take 44 buf ++ payload ++ drop (Z.to_nat (WAV_HEADER_SIZE + n)) buf).
  { assert (Htk : take (Z.to_nat (WAV_HEADER_SIZE + g)) buf1 = take 44 buf ++ chunk_of rd).
    { unfold buf1. rewrite app_assoc. apply take_app_length'.
      rewrite length_app, length_take. unfold g, WAV_HEADER_SIZE in *. lia. }
    assert (Hdr : drop (Z.to_nat (WAV_HEADER_SIZE + g + m)) buf1 =
                  drop (Z.to_nat (WAV_HEADER_SIZE + n)) buf).
    { unfold buf1. rewrite app_assoc.
      assert (HL' : Z.to_nat (WAV_HEADER_SIZE + g + m) =
          (length (take 44 buf ++ chunk_of rd) + Z.to_nat m)%nat)
        by (rewrite length_app, length_take; unfold g, WAV_HEADER_SIZE in *; lia).
      rewrite HL'. rewrite drop_app_add, drop_drop. f_equal.
      unfold g, WAV_HEADER_SIZE in *. lia. }
    unfold buf2. rewrite Htk, Hdr. unfold payload. cbn [payload_of].
    rewrite <- !app_assoc. reflexivity. }
  (* the release *)
  assert (Hpos2 : audioBufferPos s2 = WAV_HEADER_SIZE + n) by (cbn; lia).
  assert (Hu : u32 (audioBufferPos s2 - WAV_HEADER_SIZE) = n).
  { rewrite Hpos2. replace (WAV_HEADER_SIZE + n - WAV_HEADER_SIZE) with n by lia.
    apply u32_small. lia. }
  assert (Hstopped : stopped s2 =
            mkState (wavHeaderBytes n ++ payload ++ drop (Z.to_nat (WAV_HEADER_SIZE + n)) buf)
                    (WAV_HEADER_SIZE + n) false LOW).
  { unfold stopped. rewrite Hu. cbn [s2 audioBuffer audioBufferPos lastButtonState].
    f_equal; [|lia].
    rewrite writeWavHeader_split
      by (rewrite Hbuf2, !length_app, length_take, length_drop;
          unfold n, WAV_HEADER_SIZE in *; lia).
    f_equal. rewrite Hbuf2.
    replace 44%nat with (length (take 44 buf) + 0)%nat at 1
      by (rewrite length_take; lia).
    rewrite drop_app_add. reflexivity. }
  assert (Hpost : post_prefix (stopped s2) =
            [Serial (Sending (WAV_HEADER_SIZE + n)); Led HIGH; HttpPost body]).
  { rewrite Hstopped. unfold post_prefix. cbn [audioBuffer audioBufferPos].
    assert (Htake : take (Z.to_nat (WAV_HEADER_SIZE + n))
                      (wavHeaderBytes n ++ payload ++
                       drop (Z.to_nat (WAV_HEADER_SIZE + n)) buf) = body).
    { rewrite app_assoc. apply take_app_length'. unfold body.
      rewrite length_app, wavHeaderBytes_length. fold n.
      unfold WAV_HEADER_SIZE. lia. }
    rewrite Htake. reflexivity. }
  pose proof (loop_release (released true r dac) s2 eq_refl eq_refl eq_refl) as H3.
  rewrite Hu, (long_enough_threshold n) in H3 by (rewrite MAX_AUDIO_BYTES_eq; lia).
  destruct (Z.leb_spec (3 * (SAMPLE_RATE * BYTES_PER_SAMPLE)) (10 * n)); [|lia].
  cbn [released wifi_connected reply speaker] in H3.
  destruct (send_trace_prefix r dac (stopped s2)) as (ts & Hts).
  destruct (send_spec r dac (stopped s2)) as (Hcount & _).
  rewrite Hts, Hpost in Hcount.
  assert (Hcts : count is_post ts = 0%nat).
  { rewrite count_app in Hcount. simpl in Hcount. lia. }
  (* assemble *)
  assert (Hrest : run (map (fun x => held x true r) reads ++ [released true r dac])
                    (mkState buf1 (WAV_HEADER_SIZE + g) true LOW) =
                  with_prefix t2 (run [released true r dac] s2)).
  { apply run_app_done. exact H2. }
  assert (Hall : run inputs (initial buf) =
                 with_prefix [Led HIGH; Serial RecStarted; BufWrite WAV_HEADER_SIZE g; Delay 10]
                   (with_prefix t2 (run [released true r dac] s2))).
  { unfold inputs. cbn [map app]. rewrite (run_cons_done _ _ _ _ _ H1), Hrest.
    reflexivity. }
  rewrite Hall, !with_prefix_trace.
  assert (Hlast : exists t3,
            out_trace (run [released true r dac] s2) =
            stop_trace s2 ++ post_prefix (stopped s2) ++ t3 /\ count is_post t3 = 0%nat).
  { rewrite run_cons. unfold bind at 1. rewrite H3.
    destruct (sendAudioToServer true r dac (stopped s2)) as [[] s3 t3|s3 t3] eqn:Hsend;
      cbn [out_trace] in Hts.
    - rewrite (bind_done _ _ _ _ _ _ Hsend). cbn. rewrite Hts.
      exists (ts ++ [Delay 10]). rewrite count_app, Hcts.
      rewrite <- ?app_assoc. split; reflexivity.
    - rewrite (bind_blocked _ _ _ _ _ Hsend). cbn. rewrite Hts.
      exists ts. rewrite <- ?app_assoc. split; [reflexivity|exact Hcts]. }
  destruct Hlast as (t3 & Ht3 & Hc3).
  rewrite Ht3, Hpost.
  exists ([Led HIGH; Serial RecStarted; BufWrite WAV_HEADER_SIZE g; Delay 10] ++ t2 ++
          stop_trace s2 ++ [Serial (Sending (WAV_HEADER_SIZE + n)); Led HIGH]), t3.
  split; [|split; [|exact Hc3]].
  - rewrite <- ?app_assoc. reflexivity.
  - rewrite !count_app, Hc2. reflexivity.
Qed.

Lemma full_chunk_good : good_read full_chunk.
Proof. split; [reflexivity|]. vm_compute. discriminate. Qed.

Lemma recording_is_posted_as_wav_witness :
  let reads := replicate 9 full_chunk in
  let r := mkResponse 200 "text/plain" 2 [] "ok" in
  let buf := replicate (Z.to_nat capacity) 0 in
  let dac : Speaker := [] in
  let payload := payload_of (full_chunk :: reads) in
  le32_at (wavHeaderBytes (Z.of_nat (length payload)) ++ payload) 40 =
    Z.of_nat (length payload) /\
  exists t1 t2,
    out_trace (run (map (fun x => held x true r) (full_chunk :: reads) ++
                    [released true r dac]) (initial buf)) =
    t1 ++ HttpPost (wavHeaderBytes (Z.of_nat (length payload)) ++ payload) :: t2.
Proof.
  intros reads r buf dac payload.
  destruct (recording_is_posted_as_wav full_chunk reads r dac buf)
    as ((t1 & t2 & Hrun & _) & Hval & _).
  - unfold buf. rewrite length_replicate. vm_compute. reflexivity.
  - constructor; [exact full_chunk_good|].
    apply Forall_replicate. exact full_chunk_good.
  - vm_compute. discriminate.
  - vm_compute. discriminate.
  - split; [exact Hval|]. exists t1, t2. exact Hrun.
Defined.


(** ** Start-up: [connectWiFi] and [setup]

    These run once, before the first [loop]; their effects are kept in a
    trace type of their own. *)

Lemma bcount_app f t1 t2 : bcount f (t1 ++ t2) = (bcount f t1 + bcount f t2)%nat.
Proof. induction t1 as [|e t1 IH]; simpl; [reflexivity|rewrite IH; lia]. Qed.

Lemma first_connected_ge status n : forall k j,
  first_connected status k n = Some j -> (k <= j)%nat /\ status j = true.
Proof.
  induction n as [|n IH]; intros k j H; [discriminate|].
  simpl in H. destruct (status k) eqn:Hs.
  - inversion H; subst. split; [lia|exact Hs].
  - apply IH in H. split; [lia|apply H].
Qed.

Lemma wifi_wait_spec status fuel : forall k attempts,
  0 <= attempts <= 30 -> 30 - attempts <= Z.of_nat fuel ->
  let '(t, k') := wifi_wait fuel status k attempts in
  Z.of_nat (bcount is_bdelay500 t) <= 30 - attempts /\
  k' = S (k + bcount is_bdelay500 t) /\
  (match first_connected status k (Z.to_nat (30 - attempts) + 1) with
   | Some j => bcount is_bdelay500 t = (j - k)%nat
   | None => Z.of_nat (bcount is_bdelay500 t) = 30 - attempts
   end).
Proof.
  induction fuel as [|fuel IH]; intros k attempts Ha Hf.
  - assert (attempts = 30) as -> by lia.
    cbn [wifi_wait Z.ltb Z.compare Pos.compare Pos.compare_cont].
    rewrite andb_false_r. cbn [bcount].
    change (Z.to_nat (30 - 30) + 1)%nat with 1%nat. cbn [first_connected].
    split; [lia|]. split; [lia|]. destruct (status k); lia.
  - cbn [wifi_wait].
    destruct (status k) eqn:Hs; cbn [negb andb].
    + cbn [bcount].
      replace (Z.to_nat (30 - attempts) + 1)%nat
        with (S (Z.to_nat (30 - attempts))) by lia.
      cbn [first_connected]. rewrite Hs. split; [lia|]. split; lia.
    + destruct (Z.ltb_spec attempts 30) as [Hlt|Hge].
      * specialize (IH (S k) (attempts + 1) ltac:(lia) ltac:(lia)).
        destruct (wifi_wait fuel status (S k) (attempts + 1)) as [t k'].
        destruct IH as (Hb & Hk & Hfc).
        cbn [bcount is_bdelay500].
        replace (Z.to_nat (30 - attempts) + 1)%nat
          with (S (Z.to_nat (30 - (attempts + 1)) + 1)) by lia.
        cbn [first_connected]. rewrite Hs.
        split; [lia|]. split; [lia|].
        destruct (first_connected status (S k) _) as [j|] eqn:Hj; [|lia].
        apply first_connected_ge in Hj. lia.
      * assert (attempts = 30) as -> by lia.
        cbn [bcount]. change (Z.to_nat (30 - 30) + 1)%nat with 1%nat.
        cbn [first_connected]. rewrite Hs. split; [lia|]. split; lia.
Qed.

(** X11.  [connectWiFi] always returns: it waits at most 30 times 500 ms.
    If one of the first 31 status checks reports a connection, it stops
    waiting at the first such check, after as many waits as there were
    checks before it; otherwise it gives up after exactly 30 waits.  The
    line it prints last reports the status read once more after the loop. *)
Theorem connectWiFi_gives_up (status : nat -> bool) :
  let t := connectWiFi status in
  (bcount is_bdelay500 t <= 30)%nat /\
  match first_connected status 0 31 with
  | Some j =>
      bcount is_bdelay500 t = j /\
      last t = Some (BPrint (if status (S j) then WifiConnected else WifiFailed))
  | None =>
      bcount is_bdelay500 t = 30%nat /\
      last t = Some (BPrint (if status 31%nat then WifiConnected else WifiFailed))
  end.
Proof.
  intros t. subst t. unfold connectWiFi.
  pose proof (wifi_wait_spec status 30 0 0 ltac:(lia) ltac:(lia)) as H.
  destruct (wifi_wait 30 status 0 0) as [t k].
  destruct H as (Hb & Hk & Hfc).
  assert (Hcount : forall x, bcount is_bdelay500
            ([BPrint WifiConnecting; BWifiBegin] ++ t ++ [BPrint x]) =
            bcount is_bdelay500 t).
  { intros x. rewrite !bcount_app. simpl. lia. }
  assert (Hlast : forall x, last ([BPrint WifiConnecting; BWifiBegin] ++ t ++ [BPrint x]) =
                            Some (BPrint x)).
  { intros x. rewrite app_assoc. apply last_snoc. }
  rewrite Hcount, Hlast. split; [lia|].
  change (Z.to_nat (30 - 0) + 1)%nat with 31%nat in Hfc.
  destruct (first_connected status 0 31) as [j|].
  - subst k. rewrite Hfc.
    replace (j - 0)%nat with j by lia. split; reflexivity.
  - assert (bcount is_bdelay500 t = 30%nat) as Hc by lia.
    subst k. rewrite Hc. split; reflexivity.
Qed.

(** X12.  [setup] reaches the operating loop only with an allocated
    buffer: it hands over the PSRAM block when [ps_malloc] succeeds and the
    heap block otherwise, with the cursor at 0, no recording in progress and
    the button taken as up; when both allocations fail it prints the fatal
    message and never returns, without touching I2S or WiFi. *)
Theorem setup_needs_a_buffer (psram heap : option (list Z)) (status : nat -> bool) :
  let '(result, t) := setup psram heap status in
  (result = None <-> psram = None /\ heap = None) /\
  (forall s, result = Some s ->
     (audioBuffer s = default (default [] heap) psram) /\
     audioBufferPos s = 0 /\ isRecording s = false /\ lastButtonState s = HIGH /\
     last t = Some (BPrint Ready) /\ In BWifiBegin t) /\
  (result = None ->
     last t = Some (BPrint MemFatal) /\ ~ In BWifiBegin t /\
     forall port, ~ In (BI2SDriver port) t).
Proof.
  unfold setup.
  assert (Hwifi : In BWifiBegin (connectWiFi status)).
  { unfold connectWiFi. destruct (wifi_wait 30 status 0 0). simpl. auto. }
  destruct psram as [buf|]; [|destruct heap as [buf|]]; cbv beta zeta.
  - split; [split; [discriminate|intros [H _]; discriminate]|].
    split; [|discriminate].
    intros s Hs. inversion Hs; subst.
    repeat split.
    + rewrite !app_assoc. apply last_snoc.
    + do 4 (apply in_or_app; right). apply in_or_app. left. exact Hwifi.
  - split; [split; [discriminate|intros [_ H]; discriminate]|].
    split; [|discriminate].
    intros s Hs. inversion Hs; subst.
    repeat split.
    + rewrite !app_assoc. apply last_snoc.
    + do 4 (apply in_or_app; right). apply in_or_app. left. exact Hwifi.
  - split; [split; auto|].
    split; [discriminate|].
    intros _. simpl. repeat split.
    + intros H. repeat (destruct H as [H|H]; [discriminate H|]). exact H.
    + intros port H. repeat (destruct H as [H|H]; [discriminate H|]). exact H.
Qed.

